(** * muport-core-js: the identity controller of [src/muport.js]

    A shallow embedding of the [MuPort] class and of the module-level
    helpers of [src/muport.js], followed by the properties of the
    publication and recovery protocol that are established for it.

    JavaScript values are embedded as a small universe [JsVal]; objects are
    association lists in property-insertion order (the order in which a
    document is serialized and therefore hashed).  Code that awaits, throws
    or touches the module-wide [ipfs] handle is written in a state and
    exception monad over a [World] that records every call made to an
    external collaborator.  The keyring ([./keyring]), the ledger utilities
    ([./ethereum-utils]) and the npm collaborators are interfaces. *)

From Stdlib Require Import String Ascii List ZArith NArith Bool Lia.
Import ListNotations.
Open Scope string_scope.
Open Scope list_scope.

Set Warnings "-register-all".

(** ** JavaScript values *)

Inductive JsVal : Type :=
| VUndefined
| VNull
| VBool (b : bool)
| VNum (n : Z)
| VStr (s : string)
| VArr (items : list JsVal)
| VObj (fields : list (string * JsVal)).

(** A JavaScript object: own properties in insertion order. *)
Definition Obj : Type := list (string * JsVal).

(** A Node.js [Buffer]. *)
Definition Buffer : Type := list Byte.byte.

(** [ToBoolean]: what [if (v)], [!v] and [v || w] test. *)
Definition truthy (v : JsVal) : bool :=
  match v with
  | VUndefined | VNull => false
  | VBool b => b
  | VNum n => negb (n =? 0)%Z
  | VStr s => negb (s =? "")
  | VArr _ | VObj _ => true
  end.

(** [v != undefined] (loose inequality: false on [undefined] and [null]). *)
Definition not_nullish (v : JsVal) : bool :=
  match v with
  | VUndefined | VNull => false
  | _ => true
  end.

Module JsObj.

(** [k in o] for own properties. *)
Fixpoint has (k : string) (o : Obj) : bool :=
  match o with
  | [] => false
  | (k', _) :: o' => (k =? k') || has k o'
  end.

(** The own property [k], if there is one. *)
Fixpoint get (k : string) (o : Obj) : option JsVal :=
  match o with
  | [] => None
  | (k', v) :: o' => if k =? k' then Some v else get k o'
  end.

(** [o.k]: a missing property reads as [undefined]. *)
Definition prop (k : string) (o : Obj) : JsVal :=
  match get k o with
  | Some v => v
  | None => VUndefined
  end.

(** [o.k = v]: an existing property keeps its place, a new one is added
    last. *)
Fixpoint set (k : string) (v : JsVal) (o : Obj) : Obj :=
  match o with
  | [] => [(k, v)]
  | (k', v') :: o' =>
      if k =? k' then (k', v) :: o' else (k', v') :: set k v o'
  end.

(** [{ ...target, ...source }] continued on an object under construction:
    every own property of [source] is assigned in order. *)
Definition spread (target source : Obj) : Obj :=
  fold_left (fun acc kv => set (fst kv) (snd kv) acc) source target.

End JsObj.

(** ** Strings *)

Module JsString.

(** [s.split(c)] for a one-character separator [c]. *)
Fixpoint split (c : ascii) (s : string) : list string :=
  match s with
  | EmptyString => [EmptyString]
  | String a s' =>
      if Ascii.eqb a c then EmptyString :: split c s'
      else match split c s' with
           | [] => [String a EmptyString]
           | w :: ws => String a w :: ws
           end
  end.

(** [s.startsWith(p)]. *)
Fixpoint starts_with (p s : string) : bool :=
  match p, s with
  | EmptyString, _ => true
  | String a p', String b s' => Ascii.eqb a b && starts_with p' s'
  | String _ _, EmptyString => false
  end.

(** [s.indexOf(p) !== -1]. *)
Fixpoint includes (p s : string) : bool :=
  starts_with p s ||
  match s with
  | EmptyString => false
  | String _ s' => includes p s'
  end.

(** Does the character occur in the string? *)
Fixpoint mem (c : ascii) (s : string) : bool :=
  match s with
  | EmptyString => false
  | String a s' => Ascii.eqb a c || mem c s'
  end.

End JsString.

Definition colon : ascii := ":"%char.

(** [did.split(':')[2]]: [None] stands for [undefined]. *)
Definition did_segment2 (did : string) : option string :=
  nth_error (JsString.split colon did) 2.

(** The scheme prefix of [newIdentity] and [bufferToDid]. *)
Definition did_prefix : string := "did:muport:".

(** ** Results, collaborators and the world *)

(** The call to a collaborator that rejected. *)
Inductive Call : Type :=
| CResolve
| CAddJSON
| CBs58Decode
| CCreateShares
| CSymDecrypt
| CRecoverKeyring
| CSignManagementTx
| CCreatePublishTxParams
| CCalculateTxCost
| CSendRawTx.

(** What a [throw] or a rejected promise carries. *)
Inductive Error : Type :=
| DataMissing                         (* 'Data missing for restoring identity' *)
| NotThreeDids                        (* 'Must provide exactly 3 DIDs' *)
| TypeError                           (* property read or call on undefined *)
| Rejected (c : Call) (reason : JsVal).

Inductive Result (A : Type) : Type :=
| Ok (a : A)
| Throw (e : Error).
Arguments Ok {A} a.
Arguments Throw {A} e.

(** What a collaborator answers: a value, or a failure with its reason. *)
Inductive Outcome (A : Type) : Type :=
| Fulfilled (a : A)
| Failed (reason : JsVal).
Arguments Fulfilled {A} a.
Arguments Failed {A} reason.

(** Calls that leave the module, in the order they are issued. *)
Inductive Event : Type :=
| EvRegisterResolver (ipfsConf rpcProviderUrl : JsVal)
| EvResolve (d : string)
| EvAddJSON (conf : JsVal) (doc : Obj)
| EvNewKeyring
| EvCreateShares (dids : list string) (publicKeys : list JsVal)
| EvSymEncrypt (msg : Buffer)
| EvCreatePublishTxParams (hash : string) (address : JsVal)
| EvSendRawTx (signedTx : JsVal).

(** The module-wide state: the [ipfs] handle (the configuration it was last
    built with, [None] before the first [initIpfs]) and the history of
    outgoing calls. *)
Record World : Type := mkWorld {
  ipfs : option JsVal;
  trace : list Event
}.

Definition log (e : Event) (w : World) : World :=
  {| ipfs := ipfs w; trace := trace w ++ [e] |}.

(** ** The state and exception monad

    A computation runs on a state and either returns or throws; the state
    reached when it throws is kept, as a JavaScript exception keeps the
    assignments made before it. *)

Definition M (S A : Type) : Type := S -> Result A * S.

Definition ret {S A : Type} (a : A) : M S A := fun s => (Ok a, s).

Definition throw {S A : Type} (e : Error) : M S A := fun s => (Throw e, s).

Definition bind {S A B : Type} (m : M S A) (f : A -> M S B) : M S B :=
  fun s =>
    match m s with
    | (Ok a, s') => f a s'
    | (Throw e, s') => (Throw e, s')
    end.

Declare Scope js_scope.
Delimit Scope js_scope with js.
Notation "x <- m ;; k" := (bind m (fun x => k))
  (at level 61, m at next level, right associativity) : js_scope.
Notation "m ;; k" := (bind m (fun _ => k))
  (at level 61, right associativity) : js_scope.
Open Scope js_scope.

(** A call to a collaborator: it is logged, and answered from the history
    of the calls made before it. *)
Definition call {A : Type} (c : Call) (e : Event)
    (answer : list Event -> Outcome A) : M World A :=
  fun w =>
    match answer (trace w) with
    | Fulfilled a => (Ok a, log e w)
    | Failed r => (Throw (Rejected c r), log e w)
    end.

(** A synchronous library call that may throw and leaves no trace. *)
Definition attempt {S A : Type} (c : Call) (o : Outcome A) : M S A :=
  match o with
  | Fulfilled a => ret a
  | Failed r => throw (Rejected c r)
  end.

(** [xs.map(f)] for a callback that may throw: left to right, stopping at
    the first exception. *)
Fixpoint mapM {S A B : Type} (f : A -> M S B) (xs : list A) : M S (list B) :=
  match xs with
  | [] => ret []
  | x :: xs' => y <- f x ;; ys <- mapM f xs' ;; ret (y :: ys)
  end.

(** [Promise.all(xs.map(async x => ...))]: every callback is started, in
    order, whether or not an earlier one fails; the result is the list of
    values when all succeed.  When several fail, JavaScript rejects with the
    failure that settles first; the model reports the first in list order. *)
Fixpoint settle {S A B : Type} (f : A -> M S B) (xs : list A)
    : S -> list (Result B) * S :=
  fun s =>
    match xs with
    | [] => ([], s)
    | x :: xs' =>
        let (r, s1) := f x s in
        let (rs, s2) := settle f xs' s1 in
        (r :: rs, s2)
    end.

Fixpoint collect {B : Type} (rs : list (Result B)) : Result (list B) :=
  match rs with
  | [] => Ok []
  | Ok b :: rs' =>
      match collect rs' with
      | Ok bs => Ok (b :: bs)
      | Throw e => Throw e
      end
  | Throw e :: _ => Throw e
  end.

Definition promise_all {S A B : Type} (f : A -> M S B) (xs : list A)
    : M S (list B) :=
  fun s => let (rs, s') := settle f xs s in (collect rs, s').

(** ** Data of the identity controller *)

(** One entry of [didDoc.publicKey], as the resolver of [did-resolver]
    delivers it. *)
Record PublicKeyEntry : Type := mkPublicKeyEntry {
  pk_id : string;
  publicKeyHex : JsVal;
  publicKeyBase64 : JsVal
}.

(** [didDoc.muportData]. *)
Record MuportData : Type := mkMuportData {
  md_recoveryNetwork : JsVal;
  md_nym : JsVal;
  md_symEncryptedData : JsVal
}.

(** What [resolve(did)] delivers. *)
Record DidDoc : Type := mkDidDoc {
  publicKey : list PublicKeyEntry;
  muportData : MuportData
}.

(** The three public keys of a document: the object literal that
    [resolveIdentityDocument] builds.

    Modelled from the spec: [keyring.getPublicKeys()] of the missing
    [./keyring] module "returns the three public components for inclusion
    in a document", the fields [signingKey], [managementKey] and
    [asymEncryptionKey] of the IdentityDocument. *)
Record PublicKeys : Type := mkPublicKeys {
  signingKey : JsVal;
  managementKey : JsVal;
  asymEncryptionKey : JsVal
}.

Definition publicKeys_obj (pk : PublicKeys) : Obj :=
  [("signingKey", signingKey pk);
   ("managementKey", managementKey pk);
   ("asymEncryptionKey", asymEncryptionKey pk)].

(** The [opts] object of the constructor and of the static constructors.
    An absent property is [None] (or [VUndefined] for the two transport
    settings, which are only passed on); a serialized keyring and a
    document are objects, hence truthy whenever present. *)
Record Opts (SK : Type) : Type := mkOpts {
  o_did : option string;
  o_document : option Obj;
  o_documentHash : option string;
  o_keyring : option SK;
  o_ipfsConf : JsVal;
  o_rpcProviderUrl : JsVal
}.
Arguments mkOpts {SK}.
Arguments o_did {SK}.
Arguments o_document {SK}.
Arguments o_documentHash {SK}.
Arguments o_keyring {SK}.
Arguments o_ipfsConf {SK}.
Arguments o_rpcProviderUrl {SK}.

(** [opts = {}]. *)
Definition no_opts {SK : Type} : Opts SK :=
  mkOpts None None None None VUndefined VUndefined.

(** [!s] on an optional string property. *)
Definition str_truthy (s : option string) : bool :=
  match s with
  | Some s => negb (s =? "")
  | None => false
  end.

(** [a || b] on optional strings. *)
Definition str_or (a b : option string) : option string :=
  if str_truthy a then a else b.

(** [{ ...base, ...opts }] on one optional property. *)
Definition override {A : Type} (base opts : option A) : option A :=
  match opts with
  | Some v => Some v
  | None => base
  end.

(** An instance of [MuPort]: the fields assigned by the constructor.
    [ethUtils] holds the provider URL that [new EthereumUtils] was given. *)
Record MuPort (K : Type) : Type := mkMuPort {
  did : string;
  document : Obj;
  documentHash : option string;
  keyring : K;
  ethUtils : JsVal
}.
Arguments mkMuPort {K}.
Arguments did {K}.
Arguments document {K}.
Arguments documentHash {K}.
Arguments keyring {K}.
Arguments ethUtils {K}.

(** What [serializeState] returns. *)
Record SerializedState (SK : Type) : Type := mkSerializedState {
  st_did : string;
  st_document : Obj;
  st_documentHash : option string;
  st_keyring : SK
}.
Arguments mkSerializedState {SK}.
Arguments st_did {SK}.
Arguments st_document {SK}.
Arguments st_documentHash {SK}.
Arguments st_keyring {SK}.

(** What [updateDelegates] returns; [finishUpdate] is a closure, run on the
    world in which the caller invokes it. *)
Record UpdateResult : Type := mkUpdateResult {
  address : JsVal;
  costInEther : JsVal;
  finishUpdate : M World unit
}.

(** ** The collaborators

    [K] is a live [Keyring], [SK] what [keyring.serialize()] returns.  What
    an asynchronous or randomized collaborator answers may depend on the
    calls made so far. *)
Record Env (K SK : Type) : Type := mkEnv {
  (* did-resolver *)
  resolve : list Event -> string -> Outcome DidDoc;
  (* ipfs-mini, through the handle built with the given configuration *)
  addJSONAsync : JsVal -> list Event -> Obj -> Outcome string;
  (* bs58 *)
  bs58_encode : Buffer -> string;
  bs58_decode : string -> Outcome Buffer;
  (* ./keyring *)
  Keyring_new : list Event -> K;
  Keyring_restore : SK -> K;
  recoverKeyring : JsVal -> Outcome K;
  serialize : K -> SK;
  getPublicKeys : K -> PublicKeys;
  createShares : K -> list Event -> list string -> list JsVal -> Outcome JsVal;
  symEncrypt : K -> list Event -> Buffer -> JsVal;
  symDecrypt : K -> JsVal -> JsVal -> Outcome Buffer;
  getManagementAddress : K -> JsVal;
  signManagementTx : K -> JsVal -> Outcome JsVal;
  (* ./ethereum-utils, built with the given provider URL *)
  createPublishTxParams : JsVal -> list Event -> string -> JsVal -> Outcome JsVal;
  calculateTxCost : JsVal -> JsVal -> Outcome JsVal;
  sendRawTx : JsVal -> list Event -> JsVal -> Outcome unit
}.
Arguments resolve {K SK}.
Arguments addJSONAsync {K SK}.
Arguments bs58_encode {K SK}.
Arguments bs58_decode {K SK}.
Arguments Keyring_new {K SK}.
Arguments Keyring_restore {K SK}.
Arguments recoverKeyring {K SK}.
Arguments serialize {K SK}.
Arguments getPublicKeys {K SK}.
Arguments createShares {K SK}.
Arguments symEncrypt {K SK}.
Arguments symDecrypt {K SK}.
Arguments getManagementAddress {K SK}.
Arguments signManagementTx {K SK}.
Arguments createPublishTxParams {K SK}.
Arguments calculateTxCost {K SK}.
Arguments sendRawTx {K SK}.

(** [v.k] on an arbitrary value: reading a property of [undefined] or
    [null] throws; a property that is not there reads as [undefined]. *)
Definition read_prop (v : JsVal) (k : string) : Result JsVal :=
  match v with
  | VUndefined | VNull => Throw TypeError
  | VObj o => Ok (JsObj.prop k o)
  | _ => Ok VUndefined
  end.

Definition get_prop {S : Type} (v : JsVal) (k : string) : M S JsVal :=
  fun s => (read_prop v k, s).

(** [v.map(f)]: only an array has the method. *)
Definition array_map {S B : Type} (v : JsVal) (f : JsVal -> M S B)
    : M S (list B) :=
  match v with
  | VArr xs => mapM f xs
  | _ => throw TypeError
  end.

(** ** The module [src/muport.js] *)

Definition IPFS_CONF : JsVal :=
  VObj [("host", VStr "ipfs.infura.io"); ("port", VNum 5001);
        ("protocol", VStr "https")].

(** [initIpfs]: rebuilds the module-wide handle. *)
Definition initIpfs (ipfsConf : JsVal) : M World unit :=
  fun w =>
    (Ok tt, {| ipfs := Some (if truthy ipfsConf then ipfsConf else IPFS_CONF);
               trace := trace w |}).

Definition registerMuportResolver (ipfsConf rpcProviderUrl : JsVal)
    : M World unit :=
  fun w => (Ok tt, log (EvRegisterResolver ipfsConf rpcProviderUrl) w).

Definition createMuportDocument (publicKeys : Obj)
    (recoveryNetwork publicProfile symEncryptedData : JsVal) : Obj :=
  let doc := JsObj.spread [("version", VNum 1)] publicKeys in
  let doc := if truthy recoveryNetwork
             then JsObj.set "recoveryNetwork" recoveryNetwork doc else doc in
  let doc := if truthy publicProfile
             then JsObj.set "publicProfile" publicProfile doc else doc in
  let doc := if truthy symEncryptedData
             then JsObj.set "symEncryptedData" symEncryptedData doc else doc in
  doc.

(** [didDoc.publicKey.find(key => key.id.indexOf(frag) !== -1).field]:
    reading [field] of the [undefined] that [find] gives for no match
    throws. *)
Definition key_with {S : Type} (frag : string)
    (field : PublicKeyEntry -> JsVal) (keys : list PublicKeyEntry)
    : M S JsVal :=
  match find (fun key => JsString.includes frag (pk_id key)) keys with
  | Some key => ret (field key)
  | None => throw TypeError
  end.

Section Controller.

Context {K SK : Type} (E : Env K SK).

(** [ipfs.addJSONAsync(doc)] on the module-wide handle. *)
Definition ipfs_addJSON (doc : Obj) : M World string :=
  fun w =>
    match ipfs w with
    | None => (Throw TypeError, w)
    | Some conf =>
        call CAddJSON (EvAddJSON conf doc)
             (fun h => addJSONAsync E conf h doc) w
    end.

Definition bufferToDid (didBuffer : Buffer) : string :=
  (did_prefix ++ bs58_encode E didBuffer)%string.

Definition didToBuffer {S : Type} (didUri : string) : M S Buffer :=
  match did_segment2 didUri with
  | Some hash => attempt CBs58Decode (bs58_decode E hash)
  | None => throw TypeError
  end.

(** [MuPort.resolveIdentityDocument(did, opts)]; [opts] is [None] when
    the caller passes one argument. *)
Definition resolveIdentityDocument (d : string) (opts : option (Opts SK))
    : M World Obj :=
  match opts with
  | Some o => registerMuportResolver (o_ipfsConf o) (o_rpcProviderUrl o)
  | None => ret tt
  end ;;
  didDoc <- call CResolve (EvResolve d) (fun h => resolve E h d) ;;
  sk <- key_with "#signingKey" publicKeyHex (publicKey didDoc) ;;
  mk <- key_with "#managementKey" publicKeyHex (publicKey didDoc) ;;
  ek <- key_with "#encryptionKey" publicKeyBase64 (publicKey didDoc) ;;
  let publicKeys := mkPublicKeys sk mk ek in
  let recoveryNetwork := md_recoveryNetwork (muportData didDoc) in
  let publicProfile := VObj [("name", md_nym (muportData didDoc))] in
  let symEncryptedData := md_symEncryptedData (muportData didDoc) in
  ret (createMuportDocument (publicKeys_obj publicKeys) recoveryNetwork
                            publicProfile symEncryptedData).

(** [async did => (await MuPort.resolveIdentityDocument(did, opts))
    .asymEncryptionKey]. *)
Definition delegate_key (opts : option (Opts SK)) (d : string)
    : M World JsVal :=
  doc <- resolveIdentityDocument d opts ;;
  ret (JsObj.prop "asymEncryptionKey" doc).

(** [new MuPort(opts)]. *)
Definition constructor (opts : Opts SK) : M World (MuPort K) :=
  match o_did opts, o_document opts, o_keyring opts with
  | Some d, Some doc, Some kr =>
      if d =? "" then throw DataMissing
      else
        initIpfs (o_ipfsConf opts) ;;
        registerMuportResolver (o_ipfsConf opts) (o_rpcProviderUrl opts) ;;
        ret {| did := d;
               document := doc;
               documentHash := str_or (o_documentHash opts) (did_segment2 d);
               keyring := Keyring_restore E kr;
               ethUtils := o_rpcProviderUrl opts |}
  | _, _, _ => throw DataMissing
  end.

(** *** Methods: computations on the instance and the world *)

Definition Self : Type := (MuPort K * World)%type.

Definition world {A : Type} (m : M World A) : M Self A :=
  fun s => let (r, w') := m (snd s) in (r, (fst s, w')).

Definition this : M Self (MuPort K) := fun s => (Ok (fst s), s).

Definition assign (f : MuPort K -> MuPort K) : M Self unit :=
  fun s => (Ok tt, (f (fst s), snd s)).

Definition set_recoveryNetwork (v : JsVal) (t : MuPort K) : MuPort K :=
  {| did := did t;
     document := JsObj.set "recoveryNetwork" v (document t);
     documentHash := documentHash t;
     keyring := keyring t;
     ethUtils := ethUtils t |}.

Definition set_documentHash (h : string) (t : MuPort K) : MuPort K :=
  {| did := did t;
     document := document t;
     documentHash := Some h;
     keyring := keyring t;
     ethUtils := ethUtils t |}.

Definition getDid (t : MuPort K) : string := did t.

Definition getDidDocument (t : MuPort K) : Obj := document t.

Definition getRecoveryDelegateDids : M Self (list string) :=
  t <- this ;;
  symEncDids <- get_prop (JsObj.prop "symEncryptedData" (document t))
                         "symEncDids" ;;
  if not_nullish symEncDids then
    array_map symEncDids (fun encDid =>
      ciphertext <- get_prop encDid "ciphertext" ;;
      nonce <- get_prop encDid "nonce" ;;
      buf <- attempt CSymDecrypt (symDecrypt E (keyring t) ciphertext nonce) ;;
      ret (bufferToDid buf))
  else ret [].

Definition updateDelegates (delegateDids : list string)
    : M Self UpdateResult :=
  if negb (length delegateDids =? 3)%nat then throw NotThreeDids
  else
    didsPublicKeys <- world (promise_all (delegate_key None) delegateDids) ;;
    t <- this ;;
    recoveryNetwork <-
      world (call CCreateShares (EvCreateShares delegateDids didsPublicKeys)
               (fun h => createShares E (keyring t) h delegateDids
                                      didsPublicKeys)) ;;
    assign (set_recoveryNetwork recoveryNetwork) ;;
    t <- this ;;
    hash <- world (ipfs_addJSON (document t)) ;;
    assign (set_documentHash hash) ;;
    t <- this ;;
    let address := getManagementAddress E (keyring t) in
    txParams <-
      world (call CCreatePublishTxParams
               (EvCreatePublishTxParams hash address)
               (fun h => createPublishTxParams E (ethUtils t) h hash address)) ;;
    costInEther <-
      attempt CCalculateTxCost (calculateTxCost E (ethUtils t) txParams) ;;
    signedTx <-
      attempt CSignManagementTx (signManagementTx E (keyring t) txParams) ;;
    ret {| address := address;
           costInEther := costInEther;
           finishUpdate :=
             call CSendRawTx (EvSendRawTx signedTx)
                  (fun h => sendRawTx E (ethUtils t) h signedTx) |}.

Definition serializeState (t : MuPort K) : SerializedState SK :=
  {| st_did := did t;
     st_document := document t;
     st_documentHash := documentHash t;
     st_keyring := serialize E (keyring t) |}.

(** The [opts] that a serialized state is when handed to the
    constructor. *)
Definition state_opts (st : SerializedState SK) : Opts SK :=
  {| o_did := Some (st_did st);
     o_document := Some (st_document st);
     o_documentHash := st_documentHash st;
     o_keyring := Some (st_keyring st);
     o_ipfsConf := VUndefined;
     o_rpcProviderUrl := VUndefined |}.

(** *** Static constructors *)

(** [{ did, document, documentHash, keyring, ...opts }]. *)
Definition with_opts (d : string) (doc : Obj) (hash : option string)
    (kr : SK) (opts : Opts SK) : Opts SK :=
  {| o_did := override (Some d) (o_did opts);
     o_document := override (Some doc) (o_document opts);
     o_documentHash := override hash (o_documentHash opts);
     o_keyring := override (Some kr) (o_keyring opts);
     o_ipfsConf := o_ipfsConf opts;
     o_rpcProviderUrl := o_rpcProviderUrl opts |}.

(** [delegateDids.map((did) => keyring.symEncrypt(didToBuffer(did)))]. *)
Definition symEncryptDelegateDids (kr : K) (delegateDids : list string)
    : M World (list JsVal) :=
  mapM (fun d =>
          buf <- didToBuffer d ;;
          fun w => (Ok (symEncrypt E kr (trace w) buf),
                    log (EvSymEncrypt buf) w))
       delegateDids.

(** [MuPort.newIdentity(name, delegateDids, opts)]; [delegateDids] is
    [None] when it is not given. *)
Definition newIdentity (name : JsVal) (delegateDids : option (list string))
    (opts : Opts SK) : M World (MuPort K) :=
  initIpfs (o_ipfsConf opts) ;;
  let publicProfile := VObj [("name", name)] in
  kr <- (fun w => (Ok (Keyring_new E (trace w)), log EvNewKeyring w)) ;;
  shared <-
    match delegateDids with
    | Some dids =>
        didsPublicKeys <- promise_all (delegate_key (Some opts)) dids ;;
        recoveryNetwork <-
          call CCreateShares (EvCreateShares dids didsPublicKeys)
               (fun h => createShares E kr h dids didsPublicKeys) ;;
        symEncryptedDelegateDids <- symEncryptDelegateDids kr dids ;;
        ret (recoveryNetwork, VArr symEncryptedDelegateDids)
    | None => ret (VUndefined, VUndefined)
    end ;;
  let recoveryNetwork := fst shared in
  let symEncryptedDelegateDids := snd shared in
  let publicKeys := getPublicKeys E kr in
  let doc := createMuportDocument (publicKeys_obj publicKeys) recoveryNetwork
               publicProfile
               (VObj [("symEncDids", symEncryptedDelegateDids)]) in
  docHash <- ipfs_addJSON doc ;;
  let d := (did_prefix ++ docHash)%string in
  constructor (with_opts d doc (Some docHash) (serialize E kr) opts).

(** [MuPort.recoverIdentity(did, shares, opts)]. *)
Definition recoverIdentity (d : string) (shares : JsVal) (opts : Opts SK)
    : M World (MuPort K) :=
  initIpfs (o_ipfsConf opts) ;;
  doc <- resolveIdentityDocument d (Some opts) ;;
  kr <- attempt CRecoverKeyring (recoverKeyring E shares) ;;
  constructor (with_opts d doc None (serialize E kr) opts).

End Controller.

(** * The vocabulary of the properties

    Predicates and auxiliary computations in which the properties of the
    module are stated. *)

(** The transactions handed to [sendRawTx] in a history. *)
Definition broadcasts (h : list Event) : list JsVal :=
  flat_map (fun e => match e with EvSendRawTx tx => [tx] | _ => [] end) h.

(** Is the event a call to [sendRawTx]? *)
Definition is_broadcast (e : Event) : bool :=
  match e with
  | EvSendRawTx _ => true
  | _ => false
  end.

(** A computation that broadcasts nothing and keeps an initialised [ipfs]
    handle initialised. *)
Definition quiet {A : Type} (m : M World A) : Prop :=
  forall w,
    broadcasts (trace (snd (m w))) = broadcasts (trace w) /\
    (ipfs w <> None -> ipfs (snd (m w)) <> None).

(** Every exception the computation can throw satisfies [P]. *)
Definition raises {S A : Type} (P : Error -> Prop) (m : M S A) : Prop :=
  forall s e, fst (m s) = Throw e -> P e.

(** What delegate resolution can raise: the resolver's rejection, or the
    [TypeError] of a document without one of the three keys. *)
Definition resolution_error (e : Error) : Prop :=
  e = TypeError \/ exists r, e = Rejected CResolve r.


(** The [version] field of a document, when it is a number. *)
Definition version_of (doc : Obj) : option Z :=
  match JsObj.get "version" doc with
  | Some (VNum n) => Some n
  | _ => None
  end.

(** "The version of [doc'] is strictly greater than that of [doc]". *)
Definition version_increased (doc doc' : Obj) : Prop :=
  match version_of doc, version_of doc' with
  | Some n, Some n' => (n < n')%Z
  | _, _ => False
  end.

(** [!opts.did || !opts.document || !opts.keyring]. *)
Definition data_missing {SK : Type} (opts : Opts SK) : bool :=
  negb (str_truthy (o_did opts)) ||
  match o_document opts with Some _ => false | None => true end ||
  match o_keyring opts with Some _ => false | None => true end.

Section Vocabulary.

Context {K SK : Type} (E : Env K SK).

(** The instance after the two assignments of [updateDelegates]. *)
Definition republished (recoveryNetwork : JsVal) (hash : string)
    (t : MuPort K) : MuPort K :=
  set_documentHash hash (set_recoveryNetwork recoveryNetwork t).

(** What is left of [updateDelegates] once the document is republished
    under [hash]. *)
Definition anchor (t : MuPort K) (hash : string) (w : World)
    : Result UpdateResult * World :=
  let address := getManagementAddress E (keyring t) in
  let w' := log (EvCreatePublishTxParams hash address) w in
  match createPublishTxParams E (ethUtils t) (trace w) hash address with
  | Failed r => (Throw (Rejected CCreatePublishTxParams r), w')
  | Fulfilled txParams =>
      match calculateTxCost E (ethUtils t) txParams with
      | Failed r => (Throw (Rejected CCalculateTxCost r), w')
      | Fulfilled cost =>
          match signManagementTx E (keyring t) txParams with
          | Failed r => (Throw (Rejected CSignManagementTx r), w')
          | Fulfilled signedTx =>
              (Ok {| address := address;
                     costInEther := cost;
                     finishUpdate :=
                       call CSendRawTx (EvSendRawTx signedTx)
                            (fun h => sendRawTx E (ethUtils t) h signedTx) |},
               w')
          end
      end
  end.


(** What the constructor establishes and every method keeps: the
    identifier is not empty, and the content address is either a
    non-empty string or what the identifier's third segment gives. *)
Definition restorable (t : MuPort K) : Prop :=
  did t <> ""%string /\
  (str_truthy (documentHash t) = true \/
   documentHash t = did_segment2 (did t)).

(** The block guarded by [if (delegateDids)]: the recovery network and
    the encrypted delegate list, both [undefined] without delegates. *)
Definition share_with (kr : K) (delegateDids : option (list string))
    (opts : Opts SK) : M World (JsVal * JsVal) :=
  match delegateDids with
  | Some dids =>
      didsPublicKeys <- promise_all (delegate_key E (Some opts)) dids ;;
      recoveryNetwork <-
        call CCreateShares (EvCreateShares dids didsPublicKeys)
             (fun h => createShares E kr h dids didsPublicKeys) ;;
      symEncryptedDelegateDids <- symEncryptDelegateDids E kr dids ;;
      ret (recoveryNetwork, VArr symEncryptedDelegateDids)
  | None => ret (VUndefined, VUndefined)
  end.

(** The document that [newIdentity] assembles and publishes. *)
Definition assembled (name : JsVal) (kr : K) (shared : JsVal * JsVal) : Obj :=
  createMuportDocument (publicKeys_obj (getPublicKeys E kr)) (fst shared)
    (VObj [("name", name)]) (VObj [("symEncDids", snd shared)]).

(** The contract assumed of the keyring: what [symEncrypt] returns has a
    [ciphertext] and a [nonce] from which [symDecrypt], on the keyring
    restored from the serialized one, gives back the message. *)
Definition symDecrypt_inverts_symEncrypt : Prop :=
  forall (kr : K) (h : list Event) (msg : Buffer),
  exists ciphertext nonce,
    read_prop (symEncrypt E kr h msg) "ciphertext" = Ok ciphertext /\
    read_prop (symEncrypt E kr h msg) "nonce" = Ok nonce /\
    symDecrypt E (Keyring_restore E (serialize E kr)) ciphertext nonce
      = Fulfilled msg.

(** A string that [bs58] decodes and encodes back to itself. *)
Definition bs58_canonical (hash : string) : Prop :=
  exists b, bs58_decode E hash = Fulfilled b /\ bs58_encode E b = hash.

(** An identifier of this scheme: the prefix, then a base-58 payload. *)
Definition muport_did (d : string) : Prop :=
  exists hash,
    d = (did_prefix ++ hash)%string /\
    JsString.mem colon hash = false /\
    bs58_canonical hash.


(** The callback of [getRecoveryDelegateDids]. *)
Definition decryptDid (kr : K) (encDid : JsVal) : M (Self (K := K)) string :=
  ciphertext <- get_prop encDid "ciphertext" ;;
  nonce <- get_prop encDid "nonce" ;;
  buf <- attempt CSymDecrypt (symDecrypt E kr ciphertext nonce) ;;
  ret (bufferToDid E buf).

(** The callback of the encryption of the delegate list. *)
Definition encryptDid (kr : K) (d : string) : M World JsVal :=
  buf <- didToBuffer E d ;;
  fun w => (Ok (symEncrypt E kr (trace w) buf), log (EvSymEncrypt buf) w).

End Vocabulary.

(** ** A reference codec for [bs58]

    The npm module [bs58] is a collaborator; this is the base-58 codec it
    implements (Bitcoin alphabet, one leading ['1'] per leading zero byte),
    used to build the concrete environment of the examples below. *)

Module Base58.

Definition alphabet : string :=
  "123456789ABCDEFGHJKLMNPQRSTUVWXYZabcdefghijkmnopqrstuvwxyz".

(** [alphabet.indexOf(c)], [None] for [-1]. *)
Fixpoint index_of (c : ascii) (s : string) : option N :=
  match s with
  | EmptyString => None
  | String a s' =>
      if Ascii.eqb a c then Some 0%N
      else option_map N.succ (index_of c s')
  end.

(** [alphabet.charAt(n)]. *)
Definition char_at (n : N) : ascii :=
  match String.get (N.to_nat n) alphabet with
  | Some c => c
  | None => "1"%char
  end.

(** The value of a big-endian digit string. *)
Definition of_digits (base : N) (ds : list N) : N :=
  fold_left (fun acc d => (acc * base + d)%N) ds 0%N.

(** The big-endian digits of a number, without leading zeros (none at all
    for zero). *)
Fixpoint to_digits_from (fuel : nat) (base n : N) (acc : list N) : list N :=
  match fuel with
  | O => acc
  | S fuel' =>
      if (n =? 0)%N then acc
      else to_digits_from fuel' base (n / base)%N ((n mod base)%N :: acc)
  end.

Definition to_digits (base n : N) : list N :=
  to_digits_from (S (N.to_nat (N.log2 n))) base n [].

Fixpoint leading_zeros (ds : list N) : nat :=
  match ds with
  | 0%N :: ds' => S (leading_zeros ds')
  | _ => O
  end.

Fixpoint string_of (cs : list ascii) : string :=
  match cs with
  | [] => EmptyString
  | c :: cs' => String c (string_of cs')
  end.

Fixpoint digits_of_string (s : string) : option (list N) :=
  match s with
  | EmptyString => Some []
  | String c s' =>
      match index_of c alphabet, digits_of_string s' with
      | Some d, Some ds => Some (d :: ds)
      | _, _ => None
      end
  end.

Definition byte_of (n : N) : Byte.byte :=
  match Byte.of_N n with
  | Some b => b
  | None => Byte.x00
  end.

(** A digit string in normal form: no leading zero. *)
Definition normal (ds : list N) : Prop := leading_zeros ds = O.

Definition recode (from to : N) (ds : list N) : list N :=
  repeat 0%N (leading_zeros ds) ++ to_digits to (of_digits from ds).

Definition encode (b : Buffer) : string :=
  string_of (map char_at (recode 256 58 (map Byte.to_N b))).

Definition decode (s : string) : Outcome Buffer :=
  match digits_of_string s with
  | Some ds => Fulfilled (map byte_of (recode 58 256 ds))
  | None => Failed (VStr "Non-base58 character")
  end.

End Base58.

(** ** A concrete environment

    A small closed world in which the module can be run: three published
    delegates, a keyring whose symmetric cipher shifts every byte by the
    key, a store whose content address is drawn from the length of the
    history, and a ledger that accepts every transaction. *)

Module Demo.

Definition key_entry (owner frag : string) (hex b64 : JsVal)
    : PublicKeyEntry :=
  {| pk_id := (owner ++ frag)%string;
     publicKeyHex := hex; publicKeyBase64 := b64 |}.

Definition didDoc_of (owner nym : string) : DidDoc :=
  {| publicKey :=
       [key_entry owner "#signingKey" (VStr ("sig-" ++ nym)) VUndefined;
        key_entry owner "#managementKey" (VStr ("mgmt-" ++ nym)) VUndefined;
        key_entry owner "#encryptionKey" VUndefined (VStr ("enc-" ++ nym))];
     muportData :=
       {| md_recoveryNetwork := VUndefined;
          md_nym := VStr nym;
          md_symEncryptedData := VUndefined |} |}.

Definition D1 : string := "did:muport:QmZZBBKPS2NWc6PMZbUk9zUHCo1SHKzQPPX4ndfwaYzmPW".
Definition D2 : string := "did:muport:QmRhjfL4HLdB8LovGf1o43NJ8QnbfqmpdnTuBvZTewnuBV".
Definition D3 : string := "did:muport:QmUTTTkqiWQRXYkGmjBbCm5siRa3sCapkuQpYx5NMZuSKm".

Definition D4 : string := "did:muport:QmPZ9gcCEpqKTo6aq61g2nXGUhM4iCL3ewB6LDXZCtioEB".
Definition D5 : string := "did:muport:QmWATWQ7fVPP2EFGu71UkfnqhYXDYH566qy47CnJDgvs8u".
Definition D6 : string := "did:muport:QmXoypizjW3WknFiJnKLwHCnL72vedxjQkDDP1mXWo6uco".

Definition registry : list (string * string) :=
  [(D1, "one"); (D2, "two"); (D3, "three");
   (D4, "four"); (D5, "five"); (D6, "six")].

Definition resolver (h : list Event) (d : string) : Outcome DidDoc :=
  match find (fun entry => fst entry =? d) registry with
  | Some entry => Fulfilled (didDoc_of (fst entry) (snd entry))
  | None => Failed (VStr "not found")
  end.

(** The content address given to the document published as the [n]-th
    outgoing call. *)
Definition address_of (h : list Event) : string :=
  Base58.encode [Byte.x12; Byte.x20; Base58.byte_of (N.of_nat (length h))].

Definition shift (k : Z) (b : Byte.byte) : JsVal :=
  VNum ((Z.of_N (Byte.to_N b) + k) mod 256).

Definition unshift (k : Z) (v : JsVal) : option Byte.byte :=
  match v with
  | VNum n => Byte.of_N (Z.to_N ((n - k) mod 256))
  | _ => None
  end.

Fixpoint sequence {A : Type} (xs : list (option A)) : option (list A) :=
  match xs with
  | [] => Some []
  | Some x :: xs' => option_map (cons x) (sequence xs')
  | None :: _ => None
  end.

Definition encrypt (k : Z) (h : list Event) (msg : Buffer) : JsVal :=
  VObj [("nonce", VNum (Z.of_nat (length h)));
        ("ciphertext", VArr (map (shift k) msg))].

Definition decrypt (k : Z) (ciphertext nonce : JsVal) : Outcome Buffer :=
  match ciphertext with
  | VArr cs =>
      match sequence (map (unshift k) cs) with
      | Some msg => Fulfilled msg
      | None => Failed (VStr "decryption failed")
      end
  | _ => Failed (VStr "decryption failed")
  end.

Definition shares (k : Z) (h : list Event) (dids : list string)
    (keys : list JsVal) : Outcome JsVal :=
  if ((length dids =? 3) && (length keys =? 3))%nat
  then Fulfilled (VArr (map (fun key => VObj [("encryptedShare", key)]) keys))
  else Failed (VStr "There needs to be exactly 3 dids").

(** The environment whose store answers with [publish]. *)
Definition env_with (publish : list Event -> Outcome string) : Env Z Z :=
  {| resolve := resolver;
     addJSONAsync := fun _ h _ => publish h;
     bs58_encode := Base58.encode;
     bs58_decode := Base58.decode;
     Keyring_new := fun h => (Z.of_nat (length h) + 41)%Z;
     Keyring_restore := fun k => k;
     recoverKeyring := fun _ => Fulfilled 41%Z;
     serialize := fun k => k;
     getPublicKeys := fun k =>
       mkPublicKeys (VStr "sig-self") (VStr "mgmt-self") (VStr "enc-self");
     createShares := shares;
     symEncrypt := encrypt;
     symDecrypt := decrypt;
     getManagementAddress := fun k => VStr "0xmanagement";
     signManagementTx := fun k tx => Fulfilled (VObj [("signed", tx)]);
     createPublishTxParams := fun _ _ hash from =>
       Fulfilled (VObj [("from", from); ("data", VStr hash)]);
     calculateTxCost := fun _ _ => Fulfilled (VNum 21000);
     sendRawTx := fun _ _ _ => Fulfilled tt |}.

(** A store that always answers. *)
Definition env : Env Z Z := env_with (fun h => Fulfilled (address_of h)).


(** The world before the module is first used. *)
Definition w0 : World := {| ipfs := None; trace := [] |}.

Definition nobody : MuPort Z :=
  {| did := ""; document := []; documentHash := None; keyring := 0%Z;
     ethUtils := VUndefined |}.

Definition nothing : UpdateResult :=
  {| address := VUndefined; costInEther := VUndefined;
     finishUpdate := ret tt |}.

(** What a run returned, or [default] when it threw. *)
Definition returned {A : Type} (default : A) (r : Result A) : A :=
  match r with
  | Ok a => a
  | Throw _ => default
  end.

(** Alice, created with the delegates [D1], [D2], [D3]. *)
Definition alice_run : Result (MuPort Z) * World :=
  Eval vm_compute in
    newIdentity env (VStr "Alice") (Some [D1; D2; D3]) no_opts w0.

Definition alice : MuPort Z := returned nobody (fst alice_run).

(** Alice's delegates rotated to [D4], [D5], [D6]. *)
Definition rotation : Result UpdateResult * (MuPort Z * World) :=
  Eval vm_compute in
    updateDelegates env [D4; D5; D6] (alice, snd alice_run).

(** Bob, created without delegates. *)
Definition bob_run : Result (MuPort Z) * World :=
  Eval vm_compute in newIdentity env (VStr "Bob") None no_opts w0.

Definition bob : MuPort Z := returned nobody (fst bob_run).




(** The identity behind [D1], recovered from shares. *)
Definition recovery : Result (MuPort Z) * World :=
  Eval vm_compute in recoverIdentity env D1 VNull no_opts w0.

End Demo.

(** * The rest of the class *)

Section HelpRecover.

Context {K SK : Type} (E : Env K SK).

(** [keyring.decryptOneShare] of [./keyring]: the share of the recovery
    network that is addressed to the helper, or a failure. *)
Variable decryptOneShare : K -> JsVal -> JsVal -> string -> Outcome JsVal.

(** [helpRecover(did)].  The method returns the promise of
    [decryptOneShare] as it is, so its outcome is a value of the method:
    [Ok (Fulfilled share)], [Ok (Failed reason)], or the exception of the
    resolution before it. *)
Definition helpRecover (d : string) : M (Self (K := K)) (Outcome JsVal) :=
  muportDoc <- world (resolveIdentityDocument E d None) ;;
  t <- this ;;
  ret (decryptOneShare (keyring t)
         (JsObj.prop "recoveryNetwork" muportDoc)
         (JsObj.prop "asymEncryptionKey" muportDoc)
         (did t)).

End HelpRecover.

(** * The vocabulary of the further properties *)

(** [ipfsConf || IPFS_CONF]: the configuration [initIpfs] builds the handle
    with. *)
Definition handle (ipfsConf : JsVal) : JsVal :=
  if truthy ipfsConf then ipfsConf else IPFS_CONF.

(** The world once [resolveIdentityDocument] has looked at its [opts]. *)
Definition registered {SK : Type} (opts : option (Opts SK)) (w : World)
    : World :=
  match opts with
  | Some o => log (EvRegisterResolver (o_ipfsConf o) (o_rpcProviderUrl o)) w
  | None => w
  end.

(** The first key of a DID document whose id contains [frag]. *)
Definition key_of (frag : string) (didDoc : DidDoc) : option PublicKeyEntry :=
  find (fun key => JsString.includes frag (pk_id key)) (publicKey didDoc).

(** Does some key of the DID document have an id that contains [frag]? *)
Definition has_key (frag : string) (didDoc : DidDoc) : bool :=
  existsb (fun key => JsString.includes frag (pk_id key)) (publicKey didDoc).

(** The document built from a DID document, or the [TypeError] of a
    missing key. *)
Definition document_of (didDoc : DidDoc) : Result Obj :=
  match key_of "#signingKey" didDoc, key_of "#managementKey" didDoc,
        key_of "#encryptionKey" didDoc with
  | Some sk, Some mk, Some ek =>
      Ok (createMuportDocument
            (publicKeys_obj (mkPublicKeys (publicKeyHex sk) (publicKeyHex mk)
                                          (publicKeyBase64 ek)))
            (md_recoveryNetwork (muportData didDoc))
            (VObj [("name", md_nym (muportData didDoc))])
            (md_symEncryptedData (muportData didDoc)))
  | _, _, _ => Throw TypeError
  end.

(** The three fragments [resolveIdentityDocument] looks for. *)
Definition key_fragments : list string :=
  ["#signingKey"; "#managementKey"; "#encryptionKey"].

(** [Array.isArray(v)]. *)
Definition is_array (v : JsVal) : bool :=
  match v with
  | VArr _ => true
  | _ => false
  end.

(** The names of the own properties of an object, in order. *)
Definition keys_of (o : Obj) : list string := map fst o.



(** The events of the resolution of the delegates, with or without
    [opts]. *)
Definition resolutions {SK : Type} (opts : option (Opts SK))
    (dids : list string) : list Event :=
  flat_map (fun d =>
              match opts with
              | Some o => [EvRegisterResolver (o_ipfsConf o)
                                              (o_rpcProviderUrl o)]
              | None => []
              end ++ [EvResolve d]) dids.

(** The world in which [newIdentity] looks at its delegates: the handle
    rebuilt, the keyring generated. *)
Definition prepared {SK : Type} (opts : Opts SK) (w : World) : World :=
  log EvNewKeyring
      {| ipfs := Some (handle (o_ipfsConf opts)); trace := trace w |}.

(** What the delegate list round trip makes of an identifier: the scheme
    prefix followed by its third segment. *)
Definition normalised (d : string) : string :=
  match did_segment2 d with
  | Some hash => (did_prefix ++ hash)%string
  | None => d
  end.

(** ** Further concrete scenarios *)

Module Scenario.
Import Demo.

(** The concrete environment with another resolver and another
    [createShares]. *)
Definition env_of (resolver : list Event -> string -> Outcome DidDoc)
    (sharing : Z -> list Event -> list string -> list JsVal -> Outcome JsVal)
    : Env Z Z :=
  {| resolve := resolver;
     addJSONAsync := addJSONAsync env;
     bs58_encode := bs58_encode env;
     bs58_decode := bs58_decode env;
     Keyring_new := Keyring_new env;
     Keyring_restore := Keyring_restore env;
     recoverKeyring := recoverKeyring env;
     serialize := serialize env;
     getPublicKeys := getPublicKeys env;
     createShares := sharing;
     symEncrypt := symEncrypt env;
     symDecrypt := symDecrypt env;
     getManagementAddress := getManagementAddress env;
     signManagementTx := signManagementTx env;
     createPublishTxParams := createPublishTxParams env;
     calculateTxCost := calculateTxCost env;
     sendRawTx := sendRawTx env |}.

(** A DID document without a management key. *)
Definition keyless : DidDoc :=
  {| publicKey :=
       [key_entry "did:muport:x" "#signingKey" (VStr "sig-x") VUndefined;
        key_entry "did:muport:x" "#encryptionKey" VUndefined (VStr "enc-x")];
     muportData :=
       {| md_recoveryNetwork := VUndefined;
          md_nym := VUndefined;
          md_symEncryptedData := VUndefined |} |}.

(** A resolver that delivers [keyless] for every identifier. *)
Definition sparse : Env Z Z := env_of (fun _ _ => Fulfilled keyless) shares.

(** A resolver that knows every identifier, and a [createShares] that
    accepts any number of delegates. *)
Definition lenient : Env Z Z :=
  env_of (fun _ d => Fulfilled (didDoc_of d "anyone"))
         (fun _ _ _ keys =>
            Fulfilled (VArr (map (fun key => VObj [("encryptedShare", key)])
                                 keys))).

(** An identifier nobody has published. *)
Definition unknown : string := "did:muport:QmUnknown".

(** Three identifiers with the payloads of [D1], [D2], [D3]: of another
    method, with a further segment, and of the scheme. *)
Definition foreign : list string :=
  ["did:other:QmZZBBKPS2NWc6PMZbUk9zUHCo1SHKzQPPX4ndfwaYzmPW";
   "did:muport:QmRhjfL4HLdB8LovGf1o43NJ8QnbfqmpdnTuBvZTewnuBV:v2";
   D3].

(** [D1] as the resolver sees it without [opts]. *)
Definition d1_resolution : Result Obj * World :=
  Eval vm_compute in resolveIdentityDocument env D1 None w0.

(** A second instance, constructed in Alice's world with a local store. *)
Definition local_opts : Opts Z :=
  mkOpts (Some D2) (Some []) None (Some 7%Z)
         (VStr "http://localhost:5001") VUndefined.

Definition second_run : Result (MuPort Z) * World :=
  Eval vm_compute in constructor env local_opts (snd alice_run).

(** Alice's rotation after that construction. *)
Definition late_rotation : Result UpdateResult * (MuPort Z * World) :=
  Eval vm_compute in
    updateDelegates env [D4; D5; D6] (alice, snd second_run).

(** An identity created with the empty delegate list. *)
Definition empty_run : Result (MuPort Z) * World :=
  Eval vm_compute in newIdentity lenient (VStr "Erin") (Some []) no_opts w0.

(** An identity created with the [foreign] identifiers as delegates. *)
Definition frank_run : Result (MuPort Z) * World :=
  Eval vm_compute in
    newIdentity lenient (VStr "Frank") (Some foreign) no_opts w0.


(** A [decryptOneShare] that answers with what it was asked. *)
Definition echo_share (k : Z) (recoveryNetwork key : JsVal) (d : string)
    : Outcome JsVal :=
  Fulfilled (VObj [("network", recoveryNetwork); ("key", key);
                   ("helper", VStr d)]).

(** Public keys that carry a version of their own. *)
Definition versioned_keys : Obj :=
  [("version", VNum 7); ("signingKey", VStr "sig")].

End Scenario.

(** * Properties *)

(** ** Objects *)

Module JsObjFacts.
Import JsObj.

Lemma has_set (k k' : string) (v : JsVal) (o : Obj) :
  has k (set k' v o) = (k =? k') || has k o.
Proof.
  induction o as [|[k0 v0] o IH]; simpl.
  - now rewrite orb_false_r.
  - destruct (k' =? k0) eqn:Hk; simpl.
    + apply String.eqb_eq in Hk. subst k0.
      now destruct (k =? k').
    + rewrite IH.
      now destruct (k =? k'), (k =? k0).
Qed.

Lemma has_spread (k : string) (source target : Obj) :
  has k (spread target source) = has k target || has k source.
Proof.
  unfold spread. revert target.
  induction source as [|[k0 v0] source IH]; intros target; simpl.
  - now rewrite orb_false_r.
  - rewrite IH, has_set.
    destruct (has k target), (k =? k0), (has k source); reflexivity.
Qed.

Lemma get_set_same (k : string) (v : JsVal) (o : Obj) :
  get k (set k v o) = Some v.
Proof.
  induction o as [|[k0 v0] o IH]; simpl.
  - now rewrite String.eqb_refl.
  - destruct (k =? k0) eqn:Hk; simpl; rewrite Hk; [reflexivity | exact IH].
Qed.

Lemma get_set_other (k k' : string) (v : JsVal) (o : Obj) :
  k <> k' -> get k (set k' v o) = get k o.
Proof.
  intros Hne. apply String.eqb_neq in Hne.
  induction o as [|[k0 v0] o IH]; simpl.
  - now rewrite Hne.
  - destruct (k' =? k0) eqn:Hk; simpl.
    + apply String.eqb_eq in Hk. subst k0. now rewrite Hne.
    + now rewrite IH.
Qed.

Lemma has_get (k : string) (o : Obj) :
  has k o = match get k o with Some _ => true | None => false end.
Proof.
  induction o as [|[k0 v0] o IH]; simpl; [reflexivity|].
  destruct (k =? k0); simpl; [reflexivity | exact IH].
Qed.

End JsObjFacts.

(** ** Strings *)

Module JsStringFacts.
Import JsString.

(** A string without the separator is its own single segment. *)
Lemma split_no_sep (c : ascii) (s : string) :
  mem c s = false -> split c s = [s].
Proof.
  induction s as [|a s IH]; simpl; [reflexivity|].
  intros H. apply orb_false_iff in H as [Ha Hs].
  rewrite Ha, (IH Hs). reflexivity.
Qed.

Lemma split_app_sep (c : ascii) (s1 s2 : string) :
  mem c s1 = false ->
  split c (s1 ++ String c s2) = s1 :: split c s2.
Proof.
  induction s1 as [|a s1 IH]; simpl; intros H.
  - now rewrite Ascii.eqb_refl.
  - apply orb_false_iff in H as [Ha Hs].
    rewrite Ha, (IH Hs). reflexivity.
Qed.

End JsStringFacts.

(** The third segment of a scheme identifier is its payload, when the
    payload has no colon. *)
Lemma did_segment2_prefix (h : string) :
  JsString.mem colon h = false ->
  did_segment2 (did_prefix ++ h) = Some h.
Proof.
  intros H. unfold did_segment2, did_prefix.
  change ("did:muport:" ++ h)%string
    with ("did" ++ String colon ("muport" ++ String colon h))%string.
  rewrite JsStringFacts.split_app_sep by reflexivity.
  rewrite JsStringFacts.split_app_sep by reflexivity.
  rewrite JsStringFacts.split_no_sep by exact H.
  reflexivity.
Qed.

(** Whatever the payload, the third segment of [did_prefix ++ h] exists. *)
Lemma did_segment2_prefix_some (h : string) :
  exists seg, did_segment2 (did_prefix ++ h) = Some seg.
Proof.
  unfold did_segment2, did_prefix.
  change ("did:muport:" ++ h)%string
    with ("did" ++ String colon ("muport" ++ String colon h))%string.
  rewrite JsStringFacts.split_app_sep by reflexivity.
  rewrite JsStringFacts.split_app_sep by reflexivity.
  destruct h as [|a h]; simpl; [eauto|].
  destruct (Ascii.eqb a colon); [eauto|].
  destruct (JsString.split colon h); eauto.
Qed.

Lemma did_prefix_nonempty (h : string) : (did_prefix ++ h =? "")%string = false.
Proof. reflexivity. Qed.

(** ** Outgoing calls *)

Lemma broadcasts_log (e : Event) (w : World) :
  broadcasts (trace (log e w)) =
  broadcasts (trace w) ++ (if is_broadcast e then broadcasts [e] else []).
Proof.
  unfold log, broadcasts; simpl. rewrite flat_map_app. simpl.
  destruct e; simpl; now rewrite ?app_nil_r.
Qed.

Section Quiet.

Context {K SK : Type} (E : Env K SK).

Lemma quiet_ret {A : Type} (a : A) : quiet (ret a).
Proof. intros w. simpl. auto. Qed.

Lemma quiet_throw {A : Type} (e : Error) : quiet (@throw World A e).
Proof. intros w. simpl. auto. Qed.

Lemma quiet_bind {A B : Type} (m : M World A) (f : A -> M World B) :
  quiet m -> (forall a, quiet (f a)) -> quiet (bind m f).
Proof.
  intros Hm Hf w. unfold bind.
  specialize (Hm w). destruct (m w) as [[a|e] w1]; simpl in *.
  - specialize (Hf a w1). destruct Hf as [Hb Hi]. destruct Hm as [Hb' Hi'].
    split; [congruence | auto].
  - exact Hm.
Qed.

Lemma quiet_call {A : Type} (c : Call) (e : Event)
    (answer : list Event -> Outcome A) :
  is_broadcast e = false -> quiet (call c e answer).
Proof.
  intros He w. unfold call.
  destruct (answer (trace w)); cbn [snd]; split;
    try (rewrite broadcasts_log, He, app_nil_r; reflexivity);
    simpl; auto.
Qed.

Lemma quiet_attempt {A : Type} (c : Call) (o : Outcome A) :
  quiet (attempt c o).
Proof. destruct o; simpl; [apply quiet_ret | apply quiet_throw]. Qed.

Lemma quiet_mapM {A B : Type} (f : A -> M World B) (xs : list A) :
  (forall x, quiet (f x)) -> quiet (mapM f xs).
Proof.
  intros Hf. induction xs as [|x xs IH]; simpl.
  - apply quiet_ret.
  - apply quiet_bind; [apply Hf|]. intros y.
    apply quiet_bind; [exact IH|]. intros ys. apply quiet_ret.
Qed.

Lemma quiet_promise_all {A B : Type} (f : A -> M World B) (xs : list A) :
  (forall x, quiet (f x)) -> quiet (promise_all f xs).
Proof.
  intros Hf w. unfold promise_all.
  assert (H : broadcasts (trace (snd (settle f xs w))) = broadcasts (trace w)
              /\ (ipfs w <> None -> ipfs (snd (settle f xs w)) <> None)).
  { revert w. induction xs as [|x xs IH]; intros w; simpl; [auto|].
    specialize (Hf x w). destruct (f x w) as [r w1]; simpl in Hf.
    specialize (IH w1). destruct (settle f xs w1) as [rs w2]; simpl in *.
    destruct Hf, IH. split; [congruence | auto]. }
  destruct (settle f xs w) as [rs w']; simpl in *. exact H.
Qed.

Lemma quiet_key_with (frag : string) (field : PublicKeyEntry -> JsVal)
    (keys : list PublicKeyEntry) :
  quiet (key_with frag field keys).
Proof.
  unfold key_with. destruct (find _ keys); [apply quiet_ret | apply quiet_throw].
Qed.

Lemma quiet_registerMuportResolver (c u : JsVal) :
  quiet (registerMuportResolver c u).
Proof.
  intros w. unfold registerMuportResolver; cbn [snd]. split.
  - rewrite broadcasts_log; simpl. now rewrite app_nil_r.
  - simpl; auto.
Qed.

Lemma quiet_resolveIdentityDocument (d : string) (opts : option (Opts SK)) :
  quiet (resolveIdentityDocument E d opts).
Proof.
  unfold resolveIdentityDocument.
  apply quiet_bind.
  { destruct opts; [apply quiet_registerMuportResolver | apply quiet_ret]. }
  intros _. apply quiet_bind; [now apply quiet_call|]. intros didDoc.
  repeat (apply quiet_bind; [apply quiet_key_with|]; intros ?).
  apply quiet_ret.
Qed.

Lemma quiet_delegate_key (opts : option (Opts SK)) (d : string) :
  quiet (delegate_key E opts d).
Proof.
  unfold delegate_key. apply quiet_bind.
  - apply quiet_resolveIdentityDocument.
  - intros doc. apply quiet_ret.
Qed.

Lemma quiet_ipfs_addJSON (doc : Obj) : quiet (ipfs_addJSON E doc).
Proof.
  intros w. unfold ipfs_addJSON.
  destruct (ipfs w) as [conf|] eqn:Hi; simpl; [|auto].
  pose proof (@quiet_call string CAddJSON (EvAddJSON conf doc)
                (fun h => addJSONAsync E conf h doc) eq_refl w) as H.
  rewrite Hi in H. exact H.
Qed.

End Quiet.

(** ** [updateDelegates], stage by stage *)

Section UpdateDelegates.

Context {K SK : Type} (E : Env K SK).

Lemma updateDelegates_unfold (dids : list string) (t : MuPort K) (w : World) :
  updateDelegates E dids (t, w) =
  if negb (length dids =? 3)%nat then (Throw NotThreeDids, (t, w))
  else
    match promise_all (delegate_key E None) dids w with
    | (Throw e, w1) => (Throw e, (t, w1))
    | (Ok keys, w1) =>
        let w2 := log (EvCreateShares dids keys) w1 in
        match createShares E (keyring t) (trace w1) dids keys with
        | Failed r => (Throw (Rejected CCreateShares r), (t, w2))
        | Fulfilled rn =>
            let t1 := set_recoveryNetwork rn t in
            match ipfs_addJSON E (document t1) w2 with
            | (Throw e, w3) => (Throw e, (t1, w3))
            | (Ok hash, w3) =>
                let (r, w4) := anchor E t hash w3 in
                (r, (republished rn hash t, w4))
            end
        end
    end.
Proof.
  unfold updateDelegates.
  destruct (negb (length dids =? 3)%nat); [reflexivity|].
  unfold bind at 1. unfold world at 1. simpl.
  destruct (promise_all (delegate_key E None) dids w) as [[keys|e] w1];
    [|reflexivity].
  unfold bind at 1, this at 1. simpl.
  unfold bind at 1, world at 1, call at 1. simpl.
  destruct (createShares E (keyring t) (trace w1) dids keys) as [rn|r];
    [|reflexivity].
  unfold bind at 1, assign at 1. simpl.
  unfold bind at 1, this at 1. simpl.
  unfold bind at 1, world at 1. simpl.
  destruct (ipfs_addJSON E (JsObj.set "recoveryNetwork" rn (document t))
              (log (EvCreateShares dids keys) w1)) as [[hash|e] w3];
    [|reflexivity].
  unfold bind at 1, assign at 1. simpl.
  unfold bind at 1, this at 1. simpl.
  unfold anchor, bind, world, call, attempt, ret, throw. simpl.
  destruct (createPublishTxParams E (ethUtils t) (trace w3) hash
              (getManagementAddress E (keyring t))) as [tx|r];
    [|reflexivity].
  destruct (calculateTxCost E (ethUtils t) tx) as [cost|r]; [|reflexivity].
  destruct (signManagementTx E (keyring t) tx) as [signed|r]; reflexivity.
Qed.

End UpdateDelegates.

(** ** Which exceptions a computation can raise *)

Section Raises.

Context {S : Type} (P : Error -> Prop).

Lemma raises_ret {A : Type} (a : A) : raises P (@ret S A a).
Proof. intros s e H. discriminate H. Qed.

Lemma raises_throw {A : Type} (e : Error) : P e -> raises P (@throw S A e).
Proof. intros He s e' H. simpl in H. now inversion H; subst. Qed.

Lemma raises_bind {A B : Type} (m : M S A) (f : A -> M S B) :
  raises P m -> (forall a, raises P (f a)) -> raises P (bind m f).
Proof.
  intros Hm Hf s e. unfold bind.
  specialize (Hm s). destruct (m s) as [[a|e0] s1]; simpl in *.
  - apply Hf.
  - intros H. apply Hm. now inversion H.
Qed.

Lemma raises_attempt {A : Type} (c : Call) (o : Outcome A) :
  (forall r, P (Rejected c r)) -> raises P (@attempt S A c o).
Proof.
  intros Hc. destruct o; simpl; [apply raises_ret | now apply raises_throw].
Qed.


Lemma raises_collect {B : Type} (rs : list (Result B)) (e : Error) :
  collect rs = Throw e -> In (Throw e) rs.
Proof.
  induction rs as [|[b|e0] rs IH]; simpl; intros H.
  - discriminate H.
  - destruct (collect rs); [discriminate H|]. right. apply IH. exact H.
  - left. now inversion H.
Qed.

Lemma raises_settle {A B : Type} (f : A -> M S B) (xs : list A) :
  (forall x, raises P (f x)) ->
  forall s e, In (Throw e) (fst (settle f xs s)) -> P e.
Proof.
  intros Hf. induction xs as [|x xs IH]; intros s e; simpl.
  - intros [].
  - specialize (Hf x s). destruct (f x s) as [r s1] eqn:Hfx.
    specialize (IH s1 e). destruct (settle f xs s1) as [rs s2]; simpl in *.
    intros [H|H]; [apply Hf; exact H | apply IH; exact H].
Qed.

Lemma raises_promise_all {A B : Type} (f : A -> M S B) (xs : list A) :
  (forall x, raises P (f x)) -> raises P (promise_all f xs).
Proof.
  intros Hf s e. unfold promise_all.
  pose proof (raises_settle f xs Hf s e) as H.
  destruct (settle f xs s) as [rs s']; simpl in *.
  intros Hc. apply H. apply raises_collect. exact Hc.
Qed.

End Raises.

Lemma raises_call {A : Type} (P : Error -> Prop) (c : Call) (e : Event)
    (answer : list Event -> Outcome A) :
  (forall r, P (Rejected c r)) -> raises P (call c e answer).
Proof.
  intros Hc w e'. unfold call.
  destruct (answer (trace w)); simpl; intros H; [discriminate H|].
  inversion H; subst. apply Hc.
Qed.

Lemma raises_key_with {S : Type} (frag : string)
    (field : PublicKeyEntry -> JsVal) (keys : list PublicKeyEntry) :
  raises resolution_error (@key_with S frag field keys).
Proof.
  unfold key_with. destruct (find _ keys).
  - apply raises_ret.
  - apply raises_throw. now left.
Qed.

Lemma raises_delegate_key {K SK : Type} (E : Env K SK)
    (opts : option (Opts SK)) (d : string) :
  raises resolution_error (delegate_key E opts d).
Proof.
  unfold delegate_key, resolveIdentityDocument.
  apply raises_bind; [|intros; apply raises_ret].
  apply raises_bind.
  { destruct opts; intros w e H; discriminate H. }
  intros _. apply raises_bind.
  { apply raises_call. intros r. right. now exists r. }
  intros didDoc.
  repeat (apply raises_bind; [apply raises_key_with|]; intros ?).
  apply raises_ret.
Qed.


Section UpdateDelegatesTheorems.

Context {K SK : Type} (E : Env K SK).

(** C1: [updateDelegates] throws its validation error ('Must provide
    exactly 3 DIDs') if and only if the list it is given does not have
    exactly three elements; with three elements, whatever else happens, it
    does not fail on this validation. *)
Theorem updateDelegates_validation (dids : list string) (t : MuPort K)
    (w : World) :
  fst (updateDelegates E dids (t, w)) = Throw NotThreeDids
  <-> length dids <> 3.
Proof.
  rewrite updateDelegates_unfold.
  destruct (length dids =? 3)%nat eqn:Hlen; simpl.
  - apply Nat.eqb_eq in Hlen. split; [|intros H; contradiction].
    intros H. exfalso.
    pose proof (raises_promise_all resolution_error (delegate_key E None)
                  dids (raises_delegate_key E None) w) as Hres.
    destruct (promise_all (delegate_key E None) dids w) as [[keys|e] w1];
      simpl in *.
    + destruct (createShares E (keyring t) (trace w1) dids keys) as [rn|r];
        simpl in H; [|discriminate H].
      remember (log (EvCreateShares dids keys) w1) as w2.
      unfold ipfs_addJSON, call in H.
      destruct (ipfs w2) as [conf|]; simpl in H; [|discriminate H].
      destruct (addJSONAsync E conf (trace w2) _) as [hash|r]; simpl in H;
        [|discriminate H].
      unfold anchor in H.
      destruct (createPublishTxParams E _ _ _ _); simpl in H;
        [|discriminate H].
      destruct (calculateTxCost E _ _); simpl in H; [|discriminate H].
      destruct (signManagementTx E _ _); simpl in H; discriminate H.
    + inversion H; subst e.
      destruct (Hres _ eq_refl) as [He|[r He]]; discriminate He.
  - apply Nat.eqb_neq in Hlen. split; [intros _; exact Hlen | reflexivity].
Qed.

(** The rejection of a list that does not have three elements happens
    before anything else: neither the instance nor the world changes. *)
Lemma rejection_precedes_effects (dids : list string) (t : MuPort K)
    (w : World) :
  length dids <> 3 ->
  updateDelegates E dids (t, w) = (Throw NotThreeDids, (t, w)).
Proof.
  intros H. rewrite updateDelegates_unfold.
  apply Nat.eqb_neq in H. now rewrite H.
Qed.

(** What a successful [updateDelegates] did. *)
Lemma updateDelegates_ok (dids : list string) (t t' : MuPort K)
    (w w' : World) (r : UpdateResult) :
  updateDelegates E dids (t, w) = (Ok r, (t', w')) ->
  exists keys w1 rn hash w3,
    length dids = 3 /\
    promise_all (delegate_key E None) dids w = (Ok keys, w1) /\
    createShares E (keyring t) (trace w1) dids keys = Fulfilled rn /\
    ipfs_addJSON E (document (set_recoveryNetwork rn t))
                 (log (EvCreateShares dids keys) w1) = (Ok hash, w3) /\
    anchor E t hash w3 = (Ok r, w') /\
    t' = republished rn hash t.
Proof.
  rewrite updateDelegates_unfold.
  destruct (length dids =? 3)%nat eqn:Hlen; simpl; [|discriminate].
  apply Nat.eqb_eq in Hlen.
  destruct (promise_all (delegate_key E None) dids w) as [[keys|e] w1];
    [|discriminate].
  destruct (createShares E (keyring t) (trace w1) dids keys) as [rn|x] eqn:Hs;
    [|discriminate].
  simpl.
  destruct (ipfs_addJSON E _ _) as [[hash|e] w3] eqn:Ha; [|discriminate].
  destruct (anchor E t hash w3) as [r0 w4] eqn:Hanchor.
  intros H. inversion H; subst.
  exists keys, w1, rn, hash, w3. repeat split; auto.
Qed.

End UpdateDelegatesTheorems.

Section UpdateDelegatesEffects.

Context {K SK : Type} (E : Env K SK).

Lemma anchor_ok (t : MuPort K) (hash : string) (w w' : World)
    (r : UpdateResult) :
  anchor E t hash w = (Ok r, w') ->
  exists txParams signedTx,
    createPublishTxParams E (ethUtils t) (trace w) hash
      (getManagementAddress E (keyring t)) = Fulfilled txParams /\
    calculateTxCost E (ethUtils t) txParams = Fulfilled (costInEther r) /\
    signManagementTx E (keyring t) txParams = Fulfilled signedTx /\
    address r = getManagementAddress E (keyring t) /\
    finishUpdate r = call CSendRawTx (EvSendRawTx signedTx)
                       (fun h => sendRawTx E (ethUtils t) h signedTx) /\
    w' = log (EvCreatePublishTxParams hash
                (getManagementAddress E (keyring t))) w.
Proof.
  unfold anchor.
  destruct (createPublishTxParams E _ _ _ _) as [tx|x] eqn:Htx; [|discriminate].
  destruct (calculateTxCost E _ _) as [cost|x] eqn:Hcost; [|discriminate].
  destruct (signManagementTx E _ _) as [signed|x] eqn:Hsig; [|discriminate].
  intros H. inversion H; subst; simpl.
  exists tx, signed. repeat split; auto.
Qed.


(** C2 (as amended): a successful [updateDelegates] leaves the [version]
    field of the stored document as it was, so the republished document's
    version is never strictly greater than the version before the update:
    the code has no step that increments it. *)
Theorem updateDelegates_keeps_version (dids : list string)
    (t t' : MuPort K) (w w' : World) (r : UpdateResult) :
  updateDelegates E dids (t, w) = (Ok r, (t', w')) ->
  JsObj.get "version" (document t') = JsObj.get "version" (document t) /\
  ~ version_increased (document t) (document t').
Proof.
  intros H.
  destruct (updateDelegates_ok E _ _ _ _ _ _ H)
    as (keys & w1 & rn & hash & w3 & _ & _ & _ & _ & _ & Ht').
  assert (Hv : JsObj.get "version" (document t')
               = JsObj.get "version" (document t)).
  { subst t'. simpl. now apply JsObjFacts.get_set_other. }
  split; [exact Hv|].
  unfold version_increased, version_of. rewrite Hv.
  destruct (JsObj.get "version" (document t)) as [[]|]; try tauto. lia.
Qed.


(** C5: a successful [updateDelegates] hands back the management address
    and the estimated cost of the transaction it has built and signed,
    and broadcasts nothing: no call to [sendRawTx] is made.  The one
    broadcast, of that signed transaction, is made by the returned
    [finishUpdate], in the world in which the caller runs it. *)
Theorem updateDelegates_defers_broadcast (dids : list string)
    (t t' : MuPort K) (w w' : World) (r : UpdateResult) :
  updateDelegates E dids (t, w) = (Ok r, (t', w')) ->
  broadcasts (trace w') = broadcasts (trace w) /\
  address r = getManagementAddress E (keyring t) /\
  exists hash h txParams signedTx,
    documentHash t' = Some hash /\
    createPublishTxParams E (ethUtils t) h hash (address r)
      = Fulfilled txParams /\
    calculateTxCost E (ethUtils t) txParams = Fulfilled (costInEther r) /\
    signManagementTx E (keyring t) txParams = Fulfilled signedTx /\
    forall w2,
      trace (snd (finishUpdate r w2)) = trace w2 ++ [EvSendRawTx signedTx] /\
      broadcasts (trace (snd (finishUpdate r w2)))
        = broadcasts (trace w2) ++ [signedTx].
Proof.
  intros H.
  destruct (updateDelegates_ok E _ _ _ _ _ _ H)
    as (keys & w1 & rn & hash & w3 & _ & Hp & _ & Hadd & Hanchor & Ht').
  destruct (anchor_ok _ _ _ _ _ Hanchor)
    as (tx & signed & Htx & Hcost & Hsig & Haddr & Hfin & Hw').
  split; [|split; [exact Haddr|]].
  - subst w'. rewrite broadcasts_log. cbn [is_broadcast]. rewrite app_nil_r.
    pose proof (quiet_ipfs_addJSON E
                  (document (set_recoveryNetwork rn t))
                  (log (EvCreateShares dids keys) w1)) as [Hb _].
    rewrite Hadd in Hb. cbn [snd] in Hb. rewrite Hb.
    rewrite broadcasts_log. cbn [is_broadcast]. rewrite app_nil_r.
    pose proof (quiet_promise_all (delegate_key E None) dids
                  (quiet_delegate_key E None) w) as [Hb' _].
    rewrite Hp in Hb'. exact Hb'.
  - exists hash, (trace w3), tx, signed.
    rewrite Haddr. subst t'. repeat split; auto.
    + rewrite Hfin. unfold call.
      destruct (sendRawTx E (ethUtils t) (trace w2) signed); reflexivity.
    + rewrite Hfin. unfold call.
      destruct (sendRawTx E (ethUtils t) (trace w2) signed); cbn [snd];
        rewrite broadcasts_log; reflexivity.
Qed.

End UpdateDelegatesEffects.

(** ** The constructor *)

Section Constructor.

Context {K SK : Type} (E : Env K SK).

Lemma constructor_missing (opts : Opts SK) (w : World) :
  data_missing opts = true ->
  constructor E opts w = (Throw DataMissing, w).
Proof.
  unfold data_missing, constructor, str_truthy.
  destruct (o_did opts) as [d|]; [|reflexivity].
  destruct (o_document opts) as [doc|]; [|reflexivity].
  destruct (o_keyring opts) as [kr|]; [|reflexivity].
  destruct (d =? "")%string; [reflexivity | discriminate].
Qed.

Lemma constructor_ok (opts : Opts SK) (w w' : World) (t : MuPort K) :
  constructor E opts w = (Ok t, w') ->
  exists d doc kr,
    o_did opts = Some d /\ d <> ""%string /\
    o_document opts = Some doc /\ o_keyring opts = Some kr /\
    t = {| did := d;
           document := doc;
           documentHash := str_or (o_documentHash opts) (did_segment2 d);
           keyring := Keyring_restore E kr;
           ethUtils := o_rpcProviderUrl opts |} /\
    ipfs w' <> None.
Proof.
  unfold constructor.
  destruct (o_did opts) as [d|]; [|discriminate].
  destruct (o_document opts) as [doc|]; [|discriminate].
  destruct (o_keyring opts) as [kr|]; [|discriminate].
  destruct (d =? "")%string eqn:Hd; [discriminate|].
  apply String.eqb_neq in Hd.
  unfold bind, initIpfs, registerMuportResolver, ret; simpl.
  intros H. inversion H; subst.
  exists d, doc, kr. repeat split; auto. simpl. discriminate.
Qed.

Lemma constructor_present (opts : Opts SK) (w : World) :
  data_missing opts = false ->
  exists t w', constructor E opts w = (Ok t, w').
Proof.
  unfold data_missing, constructor, str_truthy.
  destruct (o_did opts) as [d|]; [|discriminate].
  destruct (o_document opts) as [doc|]; [|simpl; rewrite orb_true_r; discriminate].
  destruct (o_keyring opts) as [kr|]; [|simpl; rewrite orb_true_r; discriminate].
  destruct (d =? "")%string; [discriminate|].
  intros _. unfold bind, initIpfs, registerMuportResolver, ret; simpl. eauto.
Qed.

Lemma constructor_restorable (opts : Opts SK) (w w' : World) (t : MuPort K) :
  constructor E opts w = (Ok t, w') -> restorable t.
Proof.
  intros H. destruct (constructor_ok _ _ _ _ H)
    as (d & doc & kr & _ & Hd & _ & _ & Ht & _).
  subst t. split; [exact Hd|]. simpl. unfold str_or.
  destruct (str_truthy (o_documentHash opts)) eqn:Hh; auto.
Qed.

Lemma updateDelegates_restorable (dids : list string) (t t' : MuPort K)
    (w w' : World) (r : UpdateResult) :
  restorable t ->
  (forall conf h doc, addJSONAsync E conf h doc <> Fulfilled ""%string) ->
  updateDelegates E dids (t, w) = (Ok r, (t', w')) ->
  restorable t'.
Proof.
  intros [Hd _] Hne H.
  destruct (updateDelegates_ok E _ _ _ _ _ _ H)
    as (keys & w1 & rn & hash & w3 & _ & _ & _ & Hadd & _ & Ht').
  subst t'. split; [exact Hd|]. left. simpl.
  unfold ipfs_addJSON, call in Hadd.
  destruct (ipfs _) as [conf|]; [|discriminate].
  destruct (addJSONAsync E conf _ _) as [h|x] eqn:Hj; [|discriminate].
  inversion Hadd; subst.
  destruct (hash =? "")%string eqn:Hh; [|reflexivity].
  apply String.eqb_eq in Hh. subst hash. exfalso. eapply Hne. exact Hj.
Qed.

(** C10: an instance constructed without a (non-empty) [documentHash]
    takes as content address the third colon-separated segment of its
    identifier; this is what [recoverIdentity] does.  When [did],
    [document] or [keyring] is missing the constructor throws before it
    has any effect: the world is untouched. *)
Theorem constructor_documentHash_and_guard (opts : Opts SK) (w : World) :
  (data_missing opts = true ->
   constructor E opts w = (Throw DataMissing, w)) /\
  (data_missing opts = false ->
   str_truthy (o_documentHash opts) = false ->
   exists t w',
     constructor E opts w = (Ok t, w') /\
     documentHash t = did_segment2 (did t)) /\
  (forall d shares t w',
     o_did opts = None -> o_documentHash opts = None ->
     recoverIdentity E d shares opts w = (Ok t, w') ->
     did t = d /\ documentHash t = did_segment2 d).
Proof.
  split; [apply constructor_missing|]. split.
  - intros Hm Hh. destruct (constructor_present opts w Hm) as (t & w' & H).
    exists t, w'. split; [exact H|].
    destruct (constructor_ok _ _ _ _ H) as (d & doc & kr & _ & _ & _ & _ & Ht & _).
    subst t. simpl. unfold str_or. now rewrite Hh.
  - intros d shares t w' Hd Hh. unfold recoverIdentity, bind.
    destruct (initIpfs (o_ipfsConf opts) w) as [[[]|e] w1]; [|discriminate].
    destruct (resolveIdentityDocument E d (Some opts) w1) as [[doc|e] w2];
      [|discriminate].
    destruct (recoverKeyring E shares) as [kr|x]; simpl; [|discriminate].
    intros H. destruct (constructor_ok _ _ _ _ H)
      as (d' & doc' & kr' & Hd' & _ & _ & _ & Ht & _).
    simpl in Hd'. rewrite Hd in Hd'. simpl in Hd'. inversion Hd'; subst d'.
    subst t. simpl. rewrite Hh. simpl. auto.
Qed.

(** C9: [serializeState] returns the four fields [did], [document],
    [documentHash] and the serialized keyring, and the constructor run on
    that state succeeds with an instance that has the same [did],
    [document] and [documentHash] (and the keyring restored from its
    serialization). *)
Theorem serialize_restore (t : MuPort K) (w : World) :
  restorable t ->
  serializeState E t
    = mkSerializedState (did t) (document t) (documentHash t)
                        (serialize E (keyring t)) /\
  exists t' w',
    constructor E (state_opts (serializeState E t)) w = (Ok t', w') /\
    did t' = did t /\
    document t' = document t /\
    documentHash t' = documentHash t /\
    keyring t' = Keyring_restore E (serialize E (keyring t)).
Proof.
  intros [Hd Hh]. split; [reflexivity|].
  unfold constructor, state_opts, serializeState; simpl.
  apply String.eqb_neq in Hd. rewrite Hd.
  unfold bind, initIpfs, registerMuportResolver, ret; simpl.
  eexists _, _. split; [reflexivity|]. simpl. repeat split.
  unfold str_or. destruct (str_truthy (documentHash t)) eqn:Ht; [reflexivity|].
  destruct Hh as [Hh|Hh]; [discriminate | now rewrite Hh].
Qed.

End Constructor.

(** ** Documents *)

(** Which keys a built document has, for any [publicKeys] object. *)
Lemma createMuportDocument_has (k : string) (publicKeys : Obj)
    (rn pp sed : JsVal) :
  JsObj.has k (createMuportDocument publicKeys rn pp sed) =
  (k =? "version")%string || JsObj.has k publicKeys
  || (truthy rn && (k =? "recoveryNetwork")%string)
  || (truthy pp && (k =? "publicProfile")%string)
  || (truthy sed && (k =? "symEncryptedData")%string).
Proof.
  unfold createMuportDocument.
  destruct (truthy rn), (truthy pp), (truthy sed);
    rewrite ?JsObjFacts.has_set, JsObjFacts.has_spread; simpl;
    repeat match goal with |- context [(?a =? ?b)%string] =>
      destruct (a =? b)%string end;
    destruct (JsObj.has k publicKeys); reflexivity.
Qed.

(** The optional fields of a document built on the three public keys. *)
Lemma createMuportDocument_optional (pk : PublicKeys) (rn pp sed : JsVal) :
  let doc := createMuportDocument (publicKeys_obj pk) rn pp sed in
  JsObj.get "recoveryNetwork" doc = (if truthy rn then Some rn else None) /\
  JsObj.get "publicProfile" doc = (if truthy pp then Some pp else None) /\
  JsObj.get "symEncryptedData" doc = (if truthy sed then Some sed else None).
Proof.
  unfold createMuportDocument.
  destruct (truthy rn), (truthy pp), (truthy sed); repeat split; reflexivity.
Qed.

(** ** [newIdentity] *)

Section NewIdentity.

Context {K SK : Type} (E : Env K SK).

Lemma newIdentity_ok (name : JsVal) (delegateDids : option (list string))
    (opts : Opts SK) (w w' : World) (t : MuPort K) :
  newIdentity E name delegateDids opts w = (Ok t, w') ->
  exists w0 shared w1 docHash w2,
    let kr := Keyring_new E (trace w) in
    share_with E kr delegateDids opts w0 = (Ok shared, w1) /\
    ipfs_addJSON E (assembled E name kr shared) w1 = (Ok docHash, w2) /\
    constructor E (with_opts (did_prefix ++ docHash)%string
                             (assembled E name kr shared) (Some docHash)
                             (serialize E kr) opts) w2 = (Ok t, w').
Proof.
  unfold newIdentity. unfold bind at 1. unfold initIpfs at 1.
  unfold bind at 1. cbn [trace].
  unfold bind at 1.
fold (share_with E (Keyring_new E (trace w)) delegateDids opts).
  match goal with |- context [share_with E ?kr ?dd ?o ?w0] =>
    destruct (share_with E kr dd o w0) as [[shared|e] w1] eqn:Hs end;
    [|discriminate].
  unfold bind at 1. fold (assembled E name (Keyring_new E (trace w)) shared).
  destruct (ipfs_addJSON E _ w1) as [[docHash|e] w2] eqn:Ha; [|discriminate].
  intros H. eexists _, shared, w1, docHash, w2. cbv zeta.
  split; [exact Hs|]. split; [exact Ha | exact H].
Qed.


(** C3 (as amended): [createMuportDocument] leaves out, key and all, each
    optional field whose input is absent ([undefined], [null], or any
    other falsy value) and stores the input otherwise.  [newIdentity]
    always hands it an object for the encrypted data, so the document of
    an identity created without delegates has no [recoveryNetwork] key
    but does have the key [symEncryptedData], holding an object whose
    [symEncDids] is [undefined]. *)
Theorem optional_fields (pk : PublicKeys) (rn pp sed name : JsVal)
    (opts : Opts SK) (w w' : World) (t : MuPort K) :
  (let doc := createMuportDocument (publicKeys_obj pk) rn pp sed in
   JsObj.get "recoveryNetwork" doc = (if truthy rn then Some rn else None) /\
   JsObj.get "publicProfile" doc = (if truthy pp then Some pp else None) /\
   JsObj.get "symEncryptedData" doc
     = (if truthy sed then Some sed else None)) /\
  (o_document opts = None ->
   newIdentity E name None opts w = (Ok t, w') ->
   JsObj.get "recoveryNetwork" (document t) = None /\
   JsObj.get "publicProfile" (document t) = Some (VObj [("name", name)]) /\
   JsObj.get "symEncryptedData" (document t)
     = Some (VObj [("symEncDids", VUndefined)])).
Proof.
  split; [apply createMuportDocument_optional|].
  intros Ho H.
  destruct (newIdentity_ok _ _ _ _ _ _ H)
    as (w0 & shared & w1 & docHash & w2 & Hs & _ & Hc).
  simpl in Hs. inversion Hs; subst shared.
  destruct (constructor_ok _ _ _ _ _ Hc)
    as (d & doc & kr & _ & _ & Hdoc & _ & Ht & _).
  simpl in Hdoc. rewrite Ho in Hdoc. simpl in Hdoc. inversion Hdoc; subst doc.
  subst t. cbn [document]. unfold assembled. cbn [fst snd].
  apply (createMuportDocument_optional _ VUndefined (VObj [("name", name)])
           (VObj [("symEncDids", VUndefined)])).
Qed.

End NewIdentity.

(** One step of [mapM]. *)
Lemma mapM_cons {S A B : Type} (f : A -> M S B) (x : A) (xs : list A) (s : S) :
  mapM f (x :: xs) s =
  match f x s with
  | (Ok y, s1) =>
      match mapM f xs s1 with
      | (Ok ys, s2) => (Ok (y :: ys), s2)
      | (Throw e, s2) => (Throw e, s2)
      end
  | (Throw e, s1) => (Throw e, s1)
  end.
Proof.
  cbn [mapM]. unfold bind.
  destruct (f x s) as [[y|e] s1]; [|reflexivity].
  destruct (mapM f xs s1) as [[ys|e] s2]; reflexivity.
Qed.

(** ** The encrypted delegate list *)

Section DelegateList.

Context {K SK : Type} (E : Env K SK).

Lemma encryptDid_run (kr : K) (d : string) (w : World) :
  encryptDid E kr d w =
  match did_segment2 d with
  | Some hash =>
      match bs58_decode E hash with
      | Fulfilled b =>
          (Ok (symEncrypt E kr (trace w) b), log (EvSymEncrypt b) w)
      | Failed r => (Throw (Rejected CBs58Decode r), w)
      end
  | None => (Throw TypeError, w)
  end.
Proof.
  unfold encryptDid, bind, didToBuffer.
  destruct (did_segment2 d) as [hash|]; [|reflexivity].
  destruct (bs58_decode E hash); reflexivity.
Qed.

Lemma symEncryptDelegateDids_cons (kr : K) (d : string)
    (dids : list string) (w : World) :
  symEncryptDelegateDids E kr (d :: dids) w =
  match encryptDid E kr d w with
  | (Ok enc, w1) =>
      match symEncryptDelegateDids E kr dids w1 with
      | (Ok encs, w2) => (Ok (enc :: encs), w2)
      | (Throw e, w2) => (Throw e, w2)
      end
  | (Throw e, w1) => (Throw e, w1)
  end.
Proof. exact (mapM_cons (encryptDid E kr) d dids w). Qed.

Lemma decryptDid_cons (kr : K) (enc : JsVal) (encs : list JsVal)
    (s : Self (K := K)) :
  mapM (decryptDid E kr) (enc :: encs) s =
  match decryptDid E kr enc s with
  | (Ok d, s1) =>
      match mapM (decryptDid E kr) encs s1 with
      | (Ok ds, s2) => (Ok (d :: ds), s2)
      | (Throw e, s2) => (Throw e, s2)
      end
  | (Throw e, s1) => (Throw e, s1)
  end.
Proof. exact (mapM_cons (decryptDid E kr) enc encs s). Qed.

Lemma decrypt_encrypted (kr : K) (dids : list string) :
  symDecrypt_inverts_symEncrypt E ->
  Forall (muport_did E) dids ->
  forall w encs w',
    symEncryptDelegateDids E kr dids w = (Ok encs, w') ->
    forall s,
      mapM (decryptDid E (Keyring_restore E (serialize E kr))) encs s
      = (Ok dids, s).
Proof.
  intros Hinv Hall. induction Hall as [|d dids Hd _ IH]; intros w encs w'.
  - simpl. intros H. inversion H; subst. reflexivity.
  - rewrite symEncryptDelegateDids_cons, encryptDid_run.
    destruct Hd as (hash & Hdid & Hcolon & b & Hdec & Henc).
    rewrite Hdid, (did_segment2_prefix hash Hcolon), Hdec.
    destruct (symEncryptDelegateDids E kr dids _) as [[encs'|e] w1] eqn:Hrest;
      [|discriminate].
    intros H. inversion H; subst encs w'. intros s.
    destruct (Hinv kr (trace w) b) as (c & n & Hc & Hn & Hsym).
    rewrite decryptDid_cons.
    unfold decryptDid at 1, bind, get_prop.
    rewrite Hc, Hn, Hsym. cbn [attempt ret].
    rewrite (IH _ _ _ Hrest s).
    unfold bufferToDid. now rewrite Henc.
Qed.

(** C7: for an identity created by [newIdentity] with a list of delegate
    identifiers of this scheme, [getRecoveryDelegateDids] returns exactly
    that list, in the same order, provided the keyring's [symDecrypt]
    inverts its [symEncrypt]. *)
Theorem delegate_list_round_trip (name : JsVal) (dids : list string)
    (opts : Opts SK) (w w' : World) (t : MuPort K) :
  symDecrypt_inverts_symEncrypt E ->
  Forall (muport_did E) dids ->
  o_document opts = None -> o_keyring opts = None ->
  newIdentity E name (Some dids) opts w = (Ok t, w') ->
  forall w2, getRecoveryDelegateDids E (t, w2) = (Ok dids, (t, w2)).
Proof.
  intros Hinv Hall Hodoc Hokr H w2.
  destruct (newIdentity_ok _ _ _ _ _ _ _ H)
    as (w0 & shared & w1 & docHash & wp & Hs & _ & Hc).
  cbv zeta in Hs, Hc.
  set (kr := Keyring_new E (trace w)) in *.
  unfold share_with, bind in Hs.
  destruct (promise_all _ dids w0) as [[keys|e] wa]; [|discriminate].
  destruct (call CCreateShares _ _ wa) as [[rn|e] wb]; [|discriminate].
  destruct (symEncryptDelegateDids E kr dids wb) as [[encs|e] wc] eqn:Henc;
    [|discriminate].
  cbn [ret] in Hs. inversion Hs; subst shared wc.
  destruct (constructor_ok _ _ _ _ _ Hc)
    as (d & doc & skr & _ & _ & Hdoc & Hkr & Ht & _).
  simpl in Hdoc, Hkr. rewrite Hodoc in Hdoc. rewrite Hokr in Hkr.
  simpl in Hdoc, Hkr. inversion Hdoc; subst doc. inversion Hkr; subst skr.
  unfold getRecoveryDelegateDids. unfold bind at 1, this at 1. cbn [fst].
  destruct (createMuportDocument_optional (getPublicKeys E kr) rn
              (VObj [("name", name)]) (VObj [("symEncDids", VArr encs)]))
    as (_ & _ & Hsed).
  cbn [truthy] in Hsed.
  assert (Hp : JsObj.prop "symEncryptedData" (document t)
               = VObj [("symEncDids", VArr encs)]).
  { subst t. cbn [document]. unfold JsObj.prop, assembled. cbn [fst snd].
    now rewrite Hsed. }
  rewrite Hp. unfold bind at 1, get_prop at 1. cbn.
  subst t. cbn [keyring].
  exact (decrypt_encrypted kr dids Hinv Hall _ _ _ Henc _).
Qed.


End DelegateList.

(** ** [newIdentity] validates nothing itself *)

Section NewIdentityRaises.

Context {K SK : Type} (E : Env K SK).





End NewIdentityRaises.

(** ** The reference codec: decoding, then encoding

    Digit strings are big-endian; a string is [normal] when it has no
    leading zero. *)

Module Base58Facts.
Import Base58.

Section Digits.

Variable base : N.
Hypothesis base_ge_2 : (2 <= base)%N.

Lemma of_digits_from (ds : list N) (a : N) :
  fold_left (fun acc d => (acc * base + d)%N) ds a
  = (a * base ^ N.of_nat (length ds) + of_digits base ds)%N.
Proof.
  unfold of_digits. revert a.
  induction ds as [|d ds IH]; intros a.
  - simpl. lia.
  - cbn [fold_left length]. rewrite IH, (IH (0 * base + d)%N).
    rewrite Nat2N.inj_succ, N.pow_succ_r'. lia.
Qed.

Lemma of_digits_cons (d : N) (ds : list N) :
  of_digits base (d :: ds)
  = (d * base ^ N.of_nat (length ds) + of_digits base ds)%N.
Proof.
  unfold of_digits at 1. cbn [fold_left]. rewrite of_digits_from. lia.
Qed.

Lemma of_digits_snoc (ds : list N) (d : N) :
  of_digits base (ds ++ [d]) = (of_digits base ds * base + d)%N.
Proof.
  unfold of_digits. now rewrite fold_left_app.
Qed.

Lemma of_digits_zeros (k : nat) (ds : list N) :
  of_digits base (repeat 0%N k ++ ds) = of_digits base ds.
Proof.
  induction k as [|k IH]; [reflexivity|].
  cbn [repeat app]. rewrite of_digits_cons, IH. lia.
Qed.

(** The digits produced on top of [acc]. *)
Lemma to_digits_from_value (fuel : nat) (n : N) (acc : list N) :
  (n < 2 ^ N.of_nat fuel)%N ->
  of_digits base (to_digits_from fuel base n acc)
  = (n * base ^ N.of_nat (length acc) + of_digits base acc)%N.
Proof.
  revert n acc. induction fuel as [|fuel IH]; intros n acc Hn.
  - simpl in Hn. assert (n = 0%N) by lia. subst n. simpl. lia.
  - cbn [to_digits_from]. destruct (n =? 0)%N eqn:Hz.
    + apply N.eqb_eq in Hz. subst n. lia.
    + apply N.eqb_neq in Hz.
      rewrite Nat2N.inj_succ, N.pow_succ_r' in Hn.
      assert (Hdiv : (n / base < 2 ^ N.of_nat fuel)%N).
      { apply N.Div0.div_lt_upper_bound. nia. }
      rewrite (IH _ _ Hdiv), of_digits_cons.
      cbn [length]. rewrite Nat2N.inj_succ, N.pow_succ_r'.
      pose proof (N.div_mod n base ltac:(lia)) as Hdm.
      nia.
Qed.

Lemma to_digits_from_bounded (fuel : nat) (n : N) (acc : list N) :
  Forall (fun d => (d < base)%N) acc ->
  Forall (fun d => (d < base)%N) (to_digits_from fuel base n acc).
Proof.
  revert n acc. induction fuel as [|fuel IH]; intros n acc Hacc; simpl.
  - exact Hacc.
  - destruct (n =? 0)%N; [exact Hacc|].
    apply IH. constructor; [|exact Hacc].
    apply N.mod_lt. lia.
Qed.

Lemma to_digits_from_normal (fuel : nat) (n : N) (acc : list N) :
  (n < 2 ^ N.of_nat fuel)%N ->
  (n = 0%N -> normal acc) ->
  normal (to_digits_from fuel base n acc).
Proof.
  revert n acc. induction fuel as [|fuel IH]; intros n acc Hn Hacc.
  - simpl in Hn. simpl. apply Hacc. lia.
  - cbn [to_digits_from]. destruct (n =? 0)%N eqn:Hz.
    + apply N.eqb_eq in Hz. auto.
    + apply N.eqb_neq in Hz.
      rewrite Nat2N.inj_succ, N.pow_succ_r' in Hn.
      apply IH.
      * apply N.Div0.div_lt_upper_bound. nia.
      * intros Hq. unfold normal. cbn [leading_zeros].
        assert (Hm : (n mod base)%N = n).
        { apply N.mod_small. apply N.div_small_iff in Hq; lia. }
        rewrite Hm. destruct n; [contradiction | reflexivity].
Qed.

Lemma log2_fuel (n : N) : (n < 2 ^ N.of_nat (S (N.to_nat (N.log2 n))))%N.
Proof.
  rewrite Nat2N.inj_succ, N2Nat.id.
  destruct n as [|p]; [reflexivity|].
  apply N.log2_spec. lia.
Qed.

Lemma to_digits_value (n : N) : of_digits base (to_digits base n) = n.
Proof.
  unfold to_digits. rewrite to_digits_from_value by apply log2_fuel.
  simpl. unfold of_digits. simpl. lia.
Qed.

Lemma to_digits_bounded (n : N) :
  Forall (fun d => (d < base)%N) (to_digits base n).
Proof. apply to_digits_from_bounded. constructor. Qed.

Lemma to_digits_normal (n : N) : normal (to_digits base n).
Proof.
  apply to_digits_from_normal; [apply log2_fuel | reflexivity].
Qed.

Lemma normal_positive (ds : list N) :
  normal ds -> ds <> [] -> (0 < of_digits base ds)%N.
Proof.
  destruct ds as [|x xs]; [congruence|]. intros Hn _.
  rewrite of_digits_cons.
  assert (x <> 0%N) by (destruct x; [discriminate Hn | discriminate]).
  assert (0 < base ^ N.of_nat (length xs))%N by (apply N.neq_0_lt_0, N.pow_nonzero; lia).
  nia.
Qed.

Lemma normal_large (ds : list N) :
  normal ds -> ds <> [] ->
  (base ^ N.of_nat (pred (length ds)) <= of_digits base ds)%N.
Proof.
  destruct ds as [|x xs]; [congruence|]. intros Hn _.
  rewrite of_digits_cons. cbn [length pred].
  assert (x <> 0%N) by (destruct x; [discriminate Hn | discriminate]).
  nia.
Qed.

Lemma normal_prefix (ds : list N) (d : N) : normal (ds ++ [d]) -> normal ds.
Proof.
  destruct ds as [|x xs]; [reflexivity|].
  unfold normal. cbn [app leading_zeros]. destruct x; [discriminate | reflexivity].
Qed.

Lemma to_digits_from_of_digits (ds : list N) :
  normal ds -> Forall (fun d => (d < base)%N) ds ->
  forall fuel acc,
    (length ds <= fuel)%nat ->
    to_digits_from fuel base (of_digits base ds) acc = ds ++ acc.
Proof.
  induction ds as [|d ds IH] using rev_ind; intros Hn Hb fuel acc Hf.
  - destruct fuel; reflexivity.
  - rewrite length_app in Hf. cbn [length] in Hf.
    destruct fuel as [|fuel]; [lia|].
    apply Forall_app in Hb as [Hb Hd]. inversion Hd as [|? ? Hd' _]; subst.
    pose proof (normal_prefix _ _ Hn) as Hn'.
    assert (Hpos : (of_digits base (ds ++ [d]) <> 0)%N).
    { assert (Hne : ds ++ [d] <> []) by (destruct ds; discriminate).
      pose proof (normal_positive (ds ++ [d]) Hn Hne). lia. }
    cbn [to_digits_from]. apply N.eqb_neq in Hpos. rewrite Hpos.
    rewrite of_digits_snoc.
    assert (Hq : ((of_digits base ds * base + d) / base = of_digits base ds)%N).
    { replace (of_digits base ds * base + d)%N
        with (d + of_digits base ds * base)%N by lia.
      rewrite N.div_add by lia.
      rewrite N.div_small by exact Hd'. reflexivity. }
    assert (Hr : ((of_digits base ds * base + d) mod base = d)%N).
    { replace (of_digits base ds * base + d)%N
        with (d + of_digits base ds * base)%N by lia.
      rewrite N.Div0.mod_add. now apply N.mod_small. }
    rewrite Hq, Hr, (IH Hn' Hb) by lia.
    now rewrite <- app_assoc.
Qed.

Lemma to_digits_of_digits (ds : list N) :
  normal ds -> Forall (fun d => (d < base)%N) ds ->
  to_digits base (of_digits base ds) = ds.
Proof.
  intros Hn Hb. unfold to_digits.
  rewrite (to_digits_from_of_digits ds Hn Hb), app_nil_r; [reflexivity|].
  destruct ds as [|x xs] eqn:Hds; [simpl; lia|]. rewrite <- Hds in *.
  assert (Hne : ds <> []) by (subst; discriminate).
  pose proof (normal_large ds Hn Hne) as Hl.
  assert (H2 : (2 ^ N.of_nat (pred (length ds)) <= of_digits base ds)%N).
  { eapply N.le_trans; [|exact Hl]. apply N.pow_le_mono_l. exact base_ge_2. }
  apply N.log2_le_mono in H2. rewrite N.log2_pow2 in H2 by lia.
  assert (length ds <> 0)%nat by (subst; discriminate). lia.
Qed.

End Digits.

(** *** Leading zeros *)

Lemma leading_zeros_repeat (k : nat) (ds : list N) :
  leading_zeros (repeat 0%N k ++ ds) = (k + leading_zeros ds)%nat.
Proof. induction k as [|k IH]; simpl; [reflexivity | now rewrite IH]. Qed.

(** A digit string is its leading zeros followed by a normal string. *)
Lemma strip_zeros (ds : list N) :
  exists rest, ds = repeat 0%N (leading_zeros ds) ++ rest /\ normal rest.
Proof.
  induction ds as [|d ds (rest & Hds & Hn)].
  - exists []. split; reflexivity.
  - destruct d as [|p].
    + exists rest. split; [|exact Hn]. cbn [leading_zeros repeat app]. now rewrite <- Hds.
    + exists (N.pos p :: ds). split; reflexivity.
Qed.

(** Changing base and back gives the digits one started from. *)
Lemma recode_recode (b1 b2 : N) (ds : list N) :
  (2 <= b1)%N -> (2 <= b2)%N ->
  Forall (fun d => (d < b1)%N) ds ->
  recode b2 b1 (recode b1 b2 ds) = ds.
Proof.
  intros H1 H2 Hb. unfold recode.
  rewrite leading_zeros_repeat, (to_digits_normal b2 H2), Nat.add_0_r.
  rewrite of_digits_zeros, to_digits_value by assumption.
  destruct (strip_zeros ds) as (rest & Hds & Hn).
  rewrite Hds at 2 3. rewrite of_digits_zeros by assumption.
  rewrite to_digits_of_digits; auto.
  rewrite Hds in Hb. now apply Forall_app in Hb.
Qed.

Lemma recode_bounded (b1 b2 : N) (ds : list N) :
  (2 <= b2)%N -> Forall (fun d => (d < b2)%N) (recode b1 b2 ds).
Proof.
  intros H2. unfold recode. apply Forall_app. split.
  - apply Forall_forall. intros x Hx. apply repeat_spec in Hx. subst x. lia.
  - now apply to_digits_bounded.
Qed.

(** *** Characters and bytes *)

Lemma index_of_get (c : ascii) (s : string) (n : N) :
  index_of c s = Some n ->
  String.get (N.to_nat n) s = Some c /\ (n < N.of_nat (String.length s))%N.
Proof.
  revert n. induction s as [|a s IH]; intros n; simpl; [discriminate|].
  destruct (Ascii.eqb a c) eqn:Ha.
  - intros H. inversion H; subst n. apply Ascii.eqb_eq in Ha. subst a.
    split; [reflexivity | lia].
  - destruct (index_of c s) as [m|]; [|discriminate].
    intros H. inversion H; subst n. destruct (IH m eq_refl) as [Hg Hl].
    rewrite N2Nat.inj_succ. split; [exact Hg | lia].
Qed.

Lemma char_at_index_of (c : ascii) (d : N) :
  index_of c alphabet = Some d -> char_at d = c /\ (d < 58)%N.
Proof.
  intros H. apply index_of_get in H as [Hg Hl].
  unfold char_at. rewrite Hg. split; [reflexivity | exact Hl].
Qed.

Lemma digits_of_string_spec (s : string) (ds : list N) :
  digits_of_string s = Some ds ->
  string_of (map char_at ds) = s /\
  Forall (fun d => (d < 58)%N) ds /\
  JsString.mem colon s = false.
Proof.
  revert ds. induction s as [|c s IH]; intros ds;
    cbn [digits_of_string JsString.mem].
  - intros H. inversion H; subst. repeat split. constructor.
  - destruct (index_of c alphabet) as [d|] eqn:Hd; [|discriminate].
    destruct (digits_of_string s) as [ds'|]; [|discriminate].
    intros H. inversion H; subst ds.
    destruct (IH ds' eq_refl) as (Hs & Hb & Hc).
    destruct (char_at_index_of c d Hd) as [Hch Hlt].
    cbn [map string_of]. rewrite Hch, Hs. repeat split.
    + constructor; assumption.
    + rewrite Hc, orb_false_r.
      destruct (Ascii.eqb c colon) eqn:Hcol; [|reflexivity].
      apply Ascii.eqb_eq in Hcol. rewrite Hcol in Hd. discriminate Hd.
Qed.

Lemma to_N_byte_of (bs : list N) :
  Forall (fun d => (d < 256)%N) bs -> map Byte.to_N (map byte_of bs) = bs.
Proof.
  induction 1 as [|n bs Hn _ IH]; simpl; [reflexivity|].
  rewrite IH. f_equal. unfold byte_of.
  destruct (Byte.of_N n) as [b|] eqn:Hb.
  - now apply Byte.to_of_N.
  - apply Byte.of_N_None_iff in Hb. lia.
Qed.

(** Whatever [decode] accepts, [encode] maps back to it: every string over
    the alphabet is the encoding of the buffer it decodes to, and has no
    colon. *)
Theorem encode_decode (s : string) (b : Buffer) :
  decode s = Fulfilled b -> encode b = s /\ JsString.mem colon s = false.
Proof.
  unfold decode, encode.
  destruct (digits_of_string s) as [ds|] eqn:Hds; [|discriminate].
  intros H. inversion H; subst b.
  destruct (digits_of_string_spec s ds Hds) as (Hs & Hb & Hc).
  split; [|exact Hc].
  rewrite to_N_byte_of by (apply recode_bounded; lia).
  rewrite recode_recode by (assumption || lia).
  exact Hs.
Qed.

End Base58Facts.


(** ** The concrete environment: facts *)

Module DemoFacts.
Import Demo.

Lemma unshift_shift (k : Z) (b : Byte.byte) : unshift k (shift k b) = Some b.
Proof.
  unfold unshift, shift.
  rewrite Zminus_mod_idemp_l.
  replace (Z.of_N (Byte.to_N b) + k - k)%Z with (Z.of_N (Byte.to_N b)) by lia.
  pose proof (Byte.to_N_bounded b) as Hb.
  rewrite Z.mod_small by lia.
  rewrite N2Z.id. apply Byte.of_to_N.
Qed.

Lemma sequence_unshift (k : Z) (msg : Buffer) :
  sequence (map (unshift k) (map (shift k) msg)) = Some msg.
Proof.
  induction msg as [|b msg IH]; cbn [map sequence]; [reflexivity|].
  rewrite unshift_shift, IH. reflexivity.
Qed.

Lemma decrypt_encrypt (publish : list Event -> Outcome string) :
  symDecrypt_inverts_symEncrypt (env_with publish).
Proof.
  intros kr h msg. simpl.
  exists (VArr (map (shift kr) msg)), (VNum (Z.of_nat (length h))).
  repeat split. unfold decrypt. now rewrite sequence_unshift.
Qed.

(** In the concrete environment every identifier made of the prefix and a
    string over the base-58 alphabet is an identifier of the scheme. *)
Lemma muport_did_base58 (publish : list Event -> Outcome string)
    (hash : string) (b : Buffer) :
  Base58.decode hash = Fulfilled b ->
  muport_did (env_with publish) (did_prefix ++ hash).
Proof.
  intros Hd. destruct (Base58Facts.encode_decode hash b Hd) as [He Hc].
  exists hash. split; [reflexivity|]. split; [exact Hc|].
  exists b. split; assumption.
Qed.

End DemoFacts.

(** ** Worked examples in the concrete environment *)

Module Examples.
Import Demo.

(** Alice's rotation succeeds and her document keeps version 1. *)
Lemma rotation_keeps_version :
  updateDelegates env [D4; D5; D6] (alice, snd alice_run)
    = (Ok (returned nothing (fst rotation)), snd rotation) /\
  JsObj.get "version" (document (fst (snd rotation)))
    = JsObj.get "version" (document alice) /\
  ~ version_increased (document alice) (document (fst (snd rotation))).
Proof.
  assert (H : updateDelegates env [D4; D5; D6] (alice, snd alice_run)
              = (Ok (returned nothing (fst rotation)),
                 (fst (snd rotation), snd (snd rotation))))
    by (vm_compute; reflexivity).
  split; [exact H|].
  exact (updateDelegates_keeps_version env _ _ _ _ _ _ H).
Defined.

(** The claim that the version grows fails on Alice's rotation: the
    version is 1 before and 1 after. *)
Lemma rotation_version_not_greater :
  exists r t' w',
    updateDelegates env [D4; D5; D6] (alice, snd alice_run)
      = (Ok r, (t', w')) /\
    version_of (document alice) = Some 1%Z /\
    version_of (document t') = Some 1%Z /\
    ~ version_increased (document alice) (document t').
Proof.
  exists (returned nothing (fst rotation)), (fst (snd rotation)),
         (snd (snd rotation)).
  split; [vm_compute; reflexivity|].
  split; [reflexivity|]. split; [reflexivity|].
  vm_compute. intros H. discriminate H.
Qed.

(** Bob, created without delegates: no [recoveryNetwork], but a
    [symEncryptedData] whose [symEncDids] is [undefined]. *)
Lemma bob_optional_fields :
  (o_document (@no_opts Z) = None /\
   newIdentity env (VStr "Bob") None no_opts w0 = (Ok bob, snd bob_run)) /\
  JsObj.get "recoveryNetwork" (document bob) = None /\
  JsObj.get "publicProfile" (document bob)
    = Some (VObj [("name", VStr "Bob")]) /\
  JsObj.get "symEncryptedData" (document bob)
    = Some (VObj [("symEncDids", VUndefined)]).
Proof.
  assert (H : newIdentity env (VStr "Bob") None no_opts w0
              = (Ok bob, snd bob_run)) by (vm_compute; reflexivity).
  split; [split; [reflexivity | exact H]|].
  exact (proj2 (optional_fields env (getPublicKeys env 0%Z) VUndefined
                  VUndefined VUndefined (VStr "Bob") no_opts w0
                  (snd bob_run) bob) eq_refl H).
Defined.

(** The claim that an identity without delegates has no
    [symEncryptedData] field fails on Bob. *)
Lemma bob_has_symEncryptedData :
  exists t w',
    newIdentity env (VStr "Bob") None no_opts w0 = (Ok t, w') /\
    JsObj.has "symEncryptedData" (document t) = true /\
    JsObj.get "symEncryptedData" (document t)
      = Some (VObj [("symEncDids", VUndefined)]).
Proof.
  exists bob, (snd bob_run).
  split; [vm_compute; reflexivity|]. split; reflexivity.
Qed.



(** Alice's rotation broadcasts nothing; [finishUpdate] does. *)
Lemma rotation_defers_broadcast :
  updateDelegates env [D4; D5; D6] (alice, snd alice_run)
    = (Ok (returned nothing (fst rotation)), snd rotation) /\
  broadcasts (trace (snd (snd rotation))) = [] /\
  broadcasts
    (trace (snd (finishUpdate (returned nothing (fst rotation))
                              (snd (snd rotation)))))
    = [VObj [("signed", VObj [("from", VStr "0xmanagement");
                              ("data", VStr "767J")])]].
Proof.
  assert (H : updateDelegates env [D4; D5; D6] (alice, snd alice_run)
              = (Ok (returned nothing (fst rotation)),
                 (fst (snd rotation), snd (snd rotation))))
    by (vm_compute; reflexivity).
  split; [exact H|].
  destruct (updateDelegates_defers_broadcast env _ _ _ _ _ _ H)
    as (Hb & _ & _).
  split; [rewrite Hb; reflexivity | reflexivity].
Defined.


Lemma delegates_are_muport_dids : Forall (muport_did env) [D1; D2; D3].
Proof.
  repeat constructor;
    (eapply DemoFacts.muport_did_base58; vm_compute; reflexivity).
Qed.

(** Alice reads back her three delegates, in order. *)
Lemma alice_reads_delegates :
  getRecoveryDelegateDids env (alice, w0) = (Ok [D1; D2; D3], (alice, w0)).
Proof.
  assert (H : newIdentity env (VStr "Alice") (Some [D1; D2; D3]) no_opts w0
              = (Ok alice, snd alice_run)) by (vm_compute; reflexivity).
  exact (delegate_list_round_trip env (VStr "Alice") [D1; D2; D3] no_opts
           w0 (snd alice_run) alice
           (DemoFacts.decrypt_encrypt _) delegates_are_muport_dids
           eq_refl eq_refl H w0).
Defined.


(** Alice's state, serialized and handed back to the constructor. *)
Lemma alice_restored :
  restorable alice /\
  exists t' w',
    constructor env (state_opts (serializeState env alice)) w0 = (Ok t', w') /\
    did t' = did alice /\ document t' = document alice /\
    documentHash t' = documentHash alice.
Proof.
  assert (Hr : restorable alice).
  { split; [vm_compute; discriminate | left; reflexivity]. }
  split; [exact Hr|].
  destruct (serialize_restore env alice w0 Hr)
    as (_ & t' & w' & Hc & Hd & Hdoc & Hh & _).
  exists t', w'. repeat split; assumption.
Defined.

(** The constructor without [did] throws and leaves the world alone; with
    a state that has no content address, it takes the third segment of the
    identifier, as it does for the identity recovered for [D1]. *)
Lemma constructor_examples :
  constructor env (@no_opts Z) w0 = (Throw DataMissing, w0) /\
  (exists t w',
     constructor env (mkOpts (Some D1) (Some []) None (Some 41%Z)
                             VUndefined VUndefined) w0 = (Ok t, w') /\
     documentHash t = did_segment2 (did t)) /\
  (recoverIdentity env D1 VNull no_opts w0 = recovery /\
   did (returned nobody (fst recovery)) = D1 /\
   documentHash (returned nobody (fst recovery))
     = Some "QmZZBBKPS2NWc6PMZbUk9zUHCo1SHKzQPPX4ndfwaYzmPW"%string).
Proof.
  split; [|split].
  - exact (proj1 (constructor_documentHash_and_guard env no_opts w0) eq_refl).
  - exact (proj1 (proj2 (constructor_documentHash_and_guard env
             (mkOpts (Some D1) (Some []) None (Some 41%Z)
                     VUndefined VUndefined) w0)) eq_refl eq_refl).
  - split; [vm_compute; reflexivity|].
    exact (proj2 (proj2 (constructor_documentHash_and_guard env no_opts w0))
             D1 VNull (returned nobody (fst recovery)) (snd recovery)
             eq_refl eq_refl ltac:(vm_compute; reflexivity)).
Defined.

End Examples.

(** * Further properties of the module *)

(** ** Resolution *)

Lemma find_none_existsb {A : Type} (f : A -> bool) (l : list A) :
  find f l = None <-> existsb f l = false.
Proof.
  induction l as [|x l IH]; simpl; [tauto|].
  destruct (f x); simpl; [split; discriminate | exact IH].
Qed.

Lemma key_with_run {S : Type} (frag : string)
    (field : PublicKeyEntry -> JsVal) (keys : list PublicKeyEntry) (s : S) :
  key_with frag field keys s =
  (match find (fun key => JsString.includes frag (pk_id key)) keys with
   | Some key => Ok (field key)
   | None => Throw TypeError
   end, s).
Proof. unfold key_with. destruct (find _ keys); reflexivity. Qed.


Section Resolution.

Context {K SK : Type} (E : Env K SK).

(** What [resolveIdentityDocument] returns and the world it leaves. *)
Lemma resolveIdentityDocument_run (d : string) (opts : option (Opts SK))
    (w : World) :
  resolveIdentityDocument E d opts w =
  (match resolve E (trace (registered opts w)) d with
   | Fulfilled didDoc => document_of didDoc
   | Failed r => Throw (Rejected CResolve r)
   end,
   log (EvResolve d) (registered opts w)).
Proof.
  unfold resolveIdentityDocument. unfold bind at 1.
  assert (Hreg : match opts with
                 | Some o => registerMuportResolver (o_ipfsConf o)
                               (o_rpcProviderUrl o)
                 | None => ret tt
                 end w = (Ok tt, registered opts w)).
  { destruct opts; reflexivity. }
  rewrite Hreg. unfold bind at 1, call at 1.
  destruct (resolve E (trace (registered opts w)) d) as [didDoc|r];
    [|reflexivity].
  unfold bind, document_of, key_of. cbv beta. rewrite key_with_run.
  destruct (find _ (publicKey didDoc)) as [sk|]; [|reflexivity].
  rewrite key_with_run.
  destruct (find _ (publicKey didDoc)) as [mk|]; [|reflexivity].
  rewrite key_with_run.
  destruct (find _ (publicKey didDoc)) as [ek|]; reflexivity.
Qed.

(** X1: a document that [resolveIdentityDocument] returns always has
    version 1 and a [publicProfile] (the object [{name: nym}], also when
    the DID document has no [nym]); its three keys are those of the first
    entries of the DID document whose id contains the fragment; it has a
    [recoveryNetwork] and a [symEncryptedData] exactly when the DID
    document's [muportData] has truthy ones. *)
Theorem resolved_document_shape (d : string) (opts : option (Opts SK))
    (w w' : World) (doc : Obj) :
  resolveIdentityDocument E d opts w = (Ok doc, w') ->
  exists didDoc sk mk ek,
    resolve E (trace (registered opts w)) d = Fulfilled didDoc /\
    key_of "#signingKey" didDoc = Some sk /\
    key_of "#managementKey" didDoc = Some mk /\
    key_of "#encryptionKey" didDoc = Some ek /\
    JsObj.get "version" doc = Some (VNum 1) /\
    JsObj.get "signingKey" doc = Some (publicKeyHex sk) /\
    JsObj.get "managementKey" doc = Some (publicKeyHex mk) /\
    JsObj.get "asymEncryptionKey" doc = Some (publicKeyBase64 ek) /\
    JsObj.get "publicProfile" doc
      = Some (VObj [("name", md_nym (muportData didDoc))]) /\
    JsObj.get "recoveryNetwork" doc
      = (if truthy (md_recoveryNetwork (muportData didDoc))
         then Some (md_recoveryNetwork (muportData didDoc)) else None) /\
    JsObj.get "symEncryptedData" doc
      = (if truthy (md_symEncryptedData (muportData didDoc))
         then Some (md_symEncryptedData (muportData didDoc)) else None).
Proof.
  rewrite resolveIdentityDocument_run.
  destruct (resolve E (trace (registered opts w)) d) as [didDoc|r];
    [|discriminate].
  unfold document_of.
  destruct (key_of "#signingKey" didDoc) as [sk|] eqn:Hsk; [|discriminate].
  destruct (key_of "#managementKey" didDoc) as [mk|] eqn:Hmk; [|discriminate].
  destruct (key_of "#encryptionKey" didDoc) as [ek|] eqn:Hek; [|discriminate].
  intros H. inversion H; subst.
  exists didDoc, sk, mk, ek.
  repeat (split; [first [reflexivity | assumption]|]).
  unfold createMuportDocument.
  destruct (truthy (md_recoveryNetwork (muportData didDoc))),
           (truthy (md_symEncryptedData (muportData didDoc)));
    repeat split; reflexivity.
Qed.

(** X2: when the resolver delivers a DID document, [resolveIdentityDocument]
    throws (a [TypeError]) if and only if the document lacks a key for one
    of the three fragments ['#signingKey'], ['#managementKey'],
    ['#encryptionKey']; whichever key is later used, all three are
    required. *)
Theorem resolveIdentityDocument_missing_key (d : string)
    (opts : option (Opts SK)) (w : World) (didDoc : DidDoc) :
  resolve E (trace (registered opts w)) d = Fulfilled didDoc ->
  (fst (resolveIdentityDocument E d opts w) = Throw TypeError
   <-> exists frag, In frag key_fragments /\ has_key frag didDoc = false) /\
  (forall e, fst (resolveIdentityDocument E d opts w) = Throw e ->
             e = TypeError).
Proof.
  intros Hres. rewrite resolveIdentityDocument_run, Hres. cbn [fst].
  unfold document_of, key_of, has_key, key_fragments.
  destruct (find _ (publicKey didDoc)) as [sk|] eqn:Hsk.
  2:{ apply find_none_existsb in Hsk. split; [|intros e H; now inversion H].
      split; [|reflexivity]. intros _. exists "#signingKey". simpl. auto. }
  destruct (find (fun key => JsString.includes "#managementKey" (pk_id key))
              (publicKey didDoc)) as [mk|] eqn:Hmk.
  2:{ apply find_none_existsb in Hmk. split; [|intros e H; now inversion H].
      split; [|reflexivity]. intros _. exists "#managementKey". simpl. auto. }
  destruct (find (fun key => JsString.includes "#encryptionKey" (pk_id key))
              (publicKey didDoc)) as [ek|] eqn:Hek.
  2:{ apply find_none_existsb in Hek. split; [|intros e H; now inversion H].
      split; [|reflexivity]. intros _. exists "#encryptionKey". simpl. auto. }
  split; [|intros e H; discriminate H].
  split; [discriminate|].
  intros (frag & Hin & Hno). exfalso.
  apply find_none_existsb in Hno.
  simpl in Hin. destruct Hin as [<-|[<-|[<-|[]]]]; congruence.
Qed.

(** X3: whatever it returns, [resolveIdentityDocument] makes exactly one
    call to the resolver, preceded by one registration of the resolver
    exactly when it is given [opts]; it never touches the [ipfs] handle. *)
Theorem resolveIdentityDocument_calls (d : string) (opts : option (Opts SK))
    (w : World) :
  trace (snd (resolveIdentityDocument E d opts w))
    = trace w ++ resolutions opts [d] /\
  ipfs (snd (resolveIdentityDocument E d opts w)) = ipfs w.
Proof.
  rewrite resolveIdentityDocument_run. cbn [snd].
  destruct opts as [o|]; simpl; rewrite <- ?app_assoc; auto.
Qed.

End Resolution.

(** ** Reading the delegate list *)

(** A computation that only reads: it returns the state it was given, and
    the same result on every state. *)
Lemma mapM_reads_only {S A B : Type} (f : A -> M S B) (xs : list A) :
  (forall x s, snd (f x s) = s) ->
  (forall x s s', fst (f x s) = fst (f x s')) ->
  forall s, snd (mapM f xs s) = s /\
            forall s', fst (mapM f xs s) = fst (mapM f xs s').
Proof.
  intros Hs Hf. induction xs as [|x xs IH]; intros s.
  - split; reflexivity.
  - rewrite mapM_cons. pose proof (Hs x s) as Hx.
    destruct (f x s) as [[y|e] s1] eqn:Hfx; simpl in Hx; subst s1.
    + destruct (IH s) as [Hsnd Hfst].
      split.
      * destruct (mapM f xs s) as [[ys|e] s2]; simpl in Hsnd; subst; reflexivity.
      * intros s'. rewrite mapM_cons. pose proof (Hf x s s') as Hxx.
        pose proof (Hs x s') as Hx'.
        rewrite Hfx in Hxx. destruct (f x s') as [r s1'].
        simpl in Hxx, Hx'. subst r s1'.
        pose proof (Hfst s') as Hrest.
        destruct (mapM f xs s) as [[ys|e] s2], (mapM f xs s') as [[ys'|e'] s2'];
          simpl in Hrest; inversion Hrest; reflexivity.
    + split; [reflexivity|]. intros s'. rewrite mapM_cons.
      pose proof (Hf x s s') as Hxx. rewrite Hfx in Hxx.
      destruct (f x s') as [r s1']. simpl in Hxx. subst r. reflexivity.
Qed.

Section ReadingDelegates.

Context {K SK : Type} (E : Env K SK).

Lemma decryptDid_reads_only (kr : K) (enc : JsVal) (s : Self (K := K)) :
  snd (decryptDid E kr enc s) = s /\
  forall s', fst (decryptDid E kr enc s) = fst (decryptDid E kr enc s').
Proof.
  unfold decryptDid, bind, get_prop.
  destruct (read_prop enc "ciphertext") as [c|e]; [|split; reflexivity].
  destruct (read_prop enc "nonce") as [n|e]; [|split; reflexivity].
  destruct (symDecrypt E kr c n); split; reflexivity.
Qed.

Lemma getRecoveryDelegateDids_run (t : MuPort K) (w : World) :
  getRecoveryDelegateDids E (t, w) =
  match read_prop (JsObj.prop "symEncryptedData" (document t)) "symEncDids" with
  | Throw e => (Throw e, (t, w))
  | Ok v =>
      if not_nullish v
      then array_map v (decryptDid E (keyring t)) (t, w)
      else (Ok [], (t, w))
  end.
Proof.
  unfold getRecoveryDelegateDids, bind, this, get_prop. cbn [fst].
  destruct (read_prop _ "symEncDids") as [v|e]; [|reflexivity].
  destruct (not_nullish v); reflexivity.
Qed.

Lemma getRecoveryDelegateDids_state (t : MuPort K) (w : World) :
  snd (getRecoveryDelegateDids E (t, w)) = (t, w).
Proof.
  rewrite getRecoveryDelegateDids_run.
  destruct (read_prop _ "symEncDids") as [v|e]; [|reflexivity].
  destruct (not_nullish v); [|reflexivity].
  destruct v; try reflexivity. cbn [array_map].
  apply mapM_reads_only; intros; apply decryptDid_reads_only.
Qed.

Lemma getRecoveryDelegateDids_congr (t t2 : MuPort K) (w w2 : World) :
  JsObj.get "symEncryptedData" (document t2)
    = JsObj.get "symEncryptedData" (document t) ->
  keyring t2 = keyring t ->
  fst (getRecoveryDelegateDids E (t2, w2))
    = fst (getRecoveryDelegateDids E (t, w)).
Proof.
  intros Hdoc Hkr. rewrite !getRecoveryDelegateDids_run.
  unfold JsObj.prop. rewrite Hdoc, Hkr.
  destruct (read_prop _ "symEncDids") as [v|e]; [|reflexivity].
  destruct (not_nullish v); [|reflexivity].
  destruct v; try reflexivity. cbn [array_map].
  apply mapM_reads_only; intros; apply decryptDid_reads_only.
Qed.

(** X4: [getRecoveryDelegateDids] only reads: whatever it returns, the
    instance and the world (the [ipfs] handle, the outgoing calls) are as
    before, and its result is determined by the [symEncryptedData] field of
    the document and the keyring alone. *)
Theorem getRecoveryDelegateDids_reads_only (t : MuPort K) (w : World) :
  snd (getRecoveryDelegateDids E (t, w)) = (t, w) /\
  forall (t2 : MuPort K) (w2 : World),
    JsObj.get "symEncryptedData" (document t2)
      = JsObj.get "symEncryptedData" (document t) ->
    keyring t2 = keyring t ->
    fst (getRecoveryDelegateDids E (t2, w2))
      = fst (getRecoveryDelegateDids E (t, w)).
Proof.
  split; [apply getRecoveryDelegateDids_state|].
  intros t2 w2. apply getRecoveryDelegateDids_congr.
Qed.

(** X5: the edge cases of [getRecoveryDelegateDids].  On a document
    without a [symEncryptedData] field it throws a [TypeError].  When the
    field is an object, it returns the empty list if [symEncDids] is
    [undefined], [null] or the empty array, and throws a [TypeError] if
    [symEncDids] is neither nullish nor an array. *)
Theorem getRecoveryDelegateDids_edges (t : MuPort K) (w : World)
    (data : Obj) :
  (JsObj.get "symEncryptedData" (document t) = None ->
   getRecoveryDelegateDids E (t, w) = (Throw TypeError, (t, w))) /\
  (JsObj.get "symEncryptedData" (document t) = Some (VObj data) ->
   (not_nullish (JsObj.prop "symEncDids" data) = false ->
    getRecoveryDelegateDids E (t, w) = (Ok [], (t, w))) /\
   (JsObj.prop "symEncDids" data = VArr [] ->
    getRecoveryDelegateDids E (t, w) = (Ok [], (t, w))) /\
   (not_nullish (JsObj.prop "symEncDids" data) = true ->
    is_array (JsObj.prop "symEncDids" data) = false ->
    getRecoveryDelegateDids E (t, w) = (Throw TypeError, (t, w)))).
Proof.
  split; intros H.
  - rewrite getRecoveryDelegateDids_run. unfold JsObj.prop at 1.
    now rewrite H.
  - assert (Hrun : getRecoveryDelegateDids E (t, w) =
              if not_nullish (JsObj.prop "symEncDids" data)
              then array_map (JsObj.prop "symEncDids" data)
                             (decryptDid E (keyring t)) (t, w)
              else (Ok [], (t, w))).
    { rewrite getRecoveryDelegateDids_run. unfold JsObj.prop at 1.
      now rewrite H. }
    rewrite Hrun. repeat split.
    + intros Hn. now rewrite Hn.
    + intros Hv. rewrite Hv. reflexivity.
    + intros Hn Ha. rewrite Hn.
      destruct (JsObj.prop "symEncDids" data); try reflexivity; discriminate.
Qed.

(** X6: an identity created without delegates reads back an empty
    delegate list. *)
Theorem no_delegates_read_back (name : JsVal) (opts : Opts SK)
    (w w' : World) (t : MuPort K) :
  o_document opts = None ->
  newIdentity E name None opts w = (Ok t, w') ->
  forall w2, getRecoveryDelegateDids E (t, w2) = (Ok [], (t, w2)).
Proof.
  intros Ho H w2.
  destruct (newIdentity_ok _ _ _ _ _ _ _ H)
    as (w0 & shared & w1 & docHash & wp & Hs & _ & Hc).
  simpl in Hs. inversion Hs; subst shared.
  destruct (constructor_ok _ _ _ _ _ Hc)
    as (d & doc & kr & _ & _ & Hdoc & _ & Ht & _).
  simpl in Hdoc. rewrite Ho in Hdoc. simpl in Hdoc. inversion Hdoc; subst doc.
  destruct (createMuportDocument_optional (getPublicKeys E (Keyring_new E (trace w)))
              VUndefined (VObj [("name", name)])
              (VObj [("symEncDids", VUndefined)])) as (_ & _ & Hsed).
  rewrite getRecoveryDelegateDids_run. subst t. cbn [document].
  unfold JsObj.prop at 1. unfold assembled. cbn [fst snd].
  cbn [truthy] in Hsed. rewrite Hsed. reflexivity.
Qed.

(** X7: an identity recovered from a DID document whose [muportData] has
    no (truthy) [symEncryptedData] cannot read its delegates:
    [getRecoveryDelegateDids] throws a [TypeError]. *)
Theorem recovered_without_delegate_list (d : string) (shares : JsVal)
    (opts : Opts SK) (w w' : World) (t : MuPort K) (didDoc : DidDoc) :
  o_document opts = None ->
  resolve E (trace (registered (Some opts) (snd (initIpfs (o_ipfsConf opts) w))))
          d = Fulfilled didDoc ->
  truthy (md_symEncryptedData (muportData didDoc)) = false ->
  recoverIdentity E d shares opts w = (Ok t, w') ->
  forall w2, getRecoveryDelegateDids E (t, w2) = (Throw TypeError, (t, w2)).
Proof.
  intros Ho Hres Hsed H w2.
  unfold recoverIdentity in H. unfold bind at 1 in H.
  destruct (initIpfs (o_ipfsConf opts) w) as [[[]|e] w0] eqn:Hinit;
    [|discriminate]. cbn [snd] in Hres.
  unfold bind at 1 in H. rewrite resolveIdentityDocument_run, Hres in H.
  destruct (document_of didDoc) as [doc|e] eqn:Hdoc0; [|discriminate].
  assert (Hget : JsObj.get "symEncryptedData" doc = None).
  { unfold document_of in Hdoc0.
    destruct (key_of "#signingKey" didDoc); [|discriminate].
    destruct (key_of "#managementKey" didDoc); [|discriminate].
    destruct (key_of "#encryptionKey" didDoc); [|discriminate].
    inversion Hdoc0; subst doc.
    match goal with |- context [createMuportDocument (publicKeys_obj ?pk) ?rn ?pp ?sed] =>
      destruct (createMuportDocument_optional pk rn pp sed) as (_ & _ & Hs) end.
    rewrite Hs, Hsed. reflexivity. }
  unfold bind at 1 in H. destruct (recoverKeyring E shares) as [kr|x];
    [|discriminate]. cbn [attempt ret] in H.
  destruct (constructor_ok _ _ _ _ _ H)
    as (d' & doc' & kr' & _ & _ & Hdoc & _ & Ht & _).
  simpl in Hdoc. rewrite Ho in Hdoc. simpl in Hdoc. inversion Hdoc; subst doc'.
  rewrite getRecoveryDelegateDids_run. subst t. cbn [document].
  unfold JsObj.prop at 1. rewrite Hget. reflexivity.
Qed.

End ReadingDelegates.

(** ** Objects, continued *)

Lemma keys_of_set (k : string) (v : JsVal) (o : Obj) :
  keys_of (JsObj.set k v o)
  = keys_of o ++ (if JsObj.has k o then [] else [k]).
Proof.
  unfold keys_of. induction o as [|[k0 v0] o IH]; simpl; [reflexivity|].
  destruct (k =? k0)%string eqn:Hk; simpl.
  - now rewrite app_nil_r.
  - now rewrite IH.
Qed.

Lemma has_keys_of (k : string) (o : Obj) :
  JsObj.has k o = true <-> In k (keys_of o).
Proof.
  unfold keys_of. induction o as [|[k0 v0] o IH]; simpl.
  - split; [discriminate | tauto].
  - rewrite orb_true_iff, IH, String.eqb_eq. split; intros [H|H]; auto.
Qed.

(** ** [updateDelegates]: calls and state *)

Lemma resolutions_none {SK : Type} (dids : list string) :
  resolutions (@None (Opts SK)) dids = map EvResolve dids.
Proof. induction dids as [|d dids IH]; simpl; [|rewrite IH]; reflexivity. Qed.

(** What a fulfilled [Promise.all] holds: one value per element, in
    order, each the value its callback returned. *)
Lemma promise_all_ok {S A B : Type} (f : A -> M S B) (xs : list A)
    (s s' : S) (ys : list B) :
  promise_all f xs s = (Ok ys, s') ->
  Forall2 (fun x y => exists s0, fst (f x s0) = Ok y) xs ys.
Proof.
  unfold promise_all. revert s s' ys.
  induction xs as [|x xs IH]; intros s s' ys; simpl.
  - intros H. inversion H. constructor.
  - destruct (f x s) as [r s1] eqn:Hfx.
    destruct (settle f xs s1) as [rs s2] eqn:Hrest. simpl.
    destruct r as [y|e]; [|discriminate].
    destruct (collect rs) as [ys'|e] eqn:Hc; [|discriminate].
    intros H. inversion H; subst. constructor.
    + exists s. now rewrite Hfx.
    + apply (IH s1 s'). now rewrite Hrest, Hc.
Qed.

(** A [Promise.all] over a list with an element whose callback always
    fails is rejected. *)
Lemma promise_all_rejected {S A B : Type} (f : A -> M S B) (xs : list A)
    (x : A) :
  In x xs ->
  (forall s, exists e, fst (f x s) = Throw e) ->
  forall s, exists e, fst (promise_all f xs s) = Throw e.
Proof.
  intros Hin Hx. unfold promise_all.
  induction xs as [|x0 xs IH]; intros s; [contradiction|]. simpl.
  destruct (f x0 s) as [r s1] eqn:Hfx.
  destruct Hin as [->|Hin].
  - destruct (settle f xs s1) as [rs s2]. simpl.
    destruct (Hx s) as [e He]. rewrite Hfx in He. simpl in He. subst r. eauto.
  - specialize (IH Hin s1). destruct (settle f xs s1) as [rs s2]. simpl in *.
    destruct r as [y|e]; [|eauto].
    destruct IH as [e He]. rewrite He. eauto.
Qed.

Section UpdateCalls.

Context {K SK : Type} (E : Env K SK).

Lemma delegate_key_run (opts : option (Opts SK)) (d : string) (w : World) :
  delegate_key E opts d w =
  (match resolve E (trace (registered opts w)) d with
   | Fulfilled didDoc =>
       match document_of didDoc with
       | Ok doc => Ok (JsObj.prop "asymEncryptionKey" doc)
       | Throw e => Throw e
       end
   | Failed r => Throw (Rejected CResolve r)
   end,
   log (EvResolve d) (registered opts w)).
Proof.
  unfold delegate_key, bind. rewrite resolveIdentityDocument_run.
  destruct (resolve E _ d) as [didDoc|r]; [|reflexivity].
  destruct (document_of didDoc); reflexivity.
Qed.

(** The key a delegate contributes: the [publicKeyBase64] of its
    encryption key. *)
Lemma delegate_key_ok (opts : option (Opts SK)) (d : string) (w : World)
    (key : JsVal) :
  fst (delegate_key E opts d w) = Ok key ->
  exists h didDoc ek,
    resolve E h d = Fulfilled didDoc /\
    key_of "#encryptionKey" didDoc = Some ek /\
    key = publicKeyBase64 ek.
Proof.
  rewrite delegate_key_run. cbn [fst].
  destruct (resolve E _ d) as [didDoc|r] eqn:Hres; [|discriminate].
  unfold document_of.
  destruct (key_of "#signingKey" didDoc) as [sk|]; [|discriminate].
  destruct (key_of "#managementKey" didDoc) as [mk|]; [|discriminate].
  destruct (key_of "#encryptionKey" didDoc) as [ek|] eqn:Hek; [|discriminate].
  intros H. inversion H; subst key.
  exists (trace (registered opts w)), didDoc, ek.
  repeat split; auto.
  unfold createMuportDocument.
  destruct (truthy (md_recoveryNetwork (muportData didDoc))),
           (truthy (md_symEncryptedData (muportData didDoc))); reflexivity.
Qed.

Lemma settle_delegate_key_world (opts : option (Opts SK))
    (dids : list string) (w : World) :
  trace (snd (settle (delegate_key E opts) dids w))
    = trace w ++ resolutions opts dids /\
  ipfs (snd (settle (delegate_key E opts) dids w)) = ipfs w.
Proof.
  revert w. induction dids as [|d dids IH]; intros w; simpl.
  - now rewrite app_nil_r.
  - rewrite delegate_key_run.
    destruct (IH (log (EvResolve d) (registered opts w))) as [Ht Hi].
    destruct (settle _ dids _) as [rs w2]. simpl in *.
    rewrite Ht, Hi. destruct opts as [o|]; simpl; rewrite <- !app_assoc; auto.
Qed.

Lemma promise_all_delegate_key_world (opts : option (Opts SK))
    (dids : list string) (w : World) :
  trace (snd (promise_all (delegate_key E opts) dids w))
    = trace w ++ resolutions opts dids /\
  ipfs (snd (promise_all (delegate_key E opts) dids w)) = ipfs w.
Proof.
  unfold promise_all.
  pose proof (settle_delegate_key_world opts dids w) as H.
  destruct (settle _ dids w) as [rs w']. exact H.
Qed.

Lemma ipfs_addJSON_ok (doc : Obj) (w w' : World) (hash : string) :
  ipfs_addJSON E doc w = (Ok hash, w') ->
  exists conf,
    ipfs w = Some conf /\
    addJSONAsync E conf (trace w) doc = Fulfilled hash /\
    w' = log (EvAddJSON conf doc) w.
Proof.
  unfold ipfs_addJSON, call.
  destruct (ipfs w) as [conf|]; [|discriminate].
  destruct (addJSONAsync E conf (trace w) doc) as [h|r] eqn:Ha; [|discriminate].
  intros H. inversion H; subst. eauto.
Qed.

(** The stages of a successful [updateDelegates], with the worlds between
    them resolved. *)
Lemma updateDelegates_ok_stages (dids : list string) (t t' : MuPort K)
    (w w' : World) (r : UpdateResult) :
  updateDelegates E dids (t, w) = (Ok r, (t', w')) ->
  exists keys rn hash conf w1,
    promise_all (delegate_key E None) dids w = (Ok keys, w1) /\
    createShares E (keyring t) (trace w ++ map EvResolve dids) dids keys
      = Fulfilled rn /\
    ipfs w = Some conf /\
    addJSONAsync E conf
      (trace w ++ map EvResolve dids ++ [EvCreateShares dids keys])
      (JsObj.set "recoveryNetwork" rn (document t)) = Fulfilled hash /\
    t' = republished rn hash t /\
    address r = getManagementAddress E (keyring t) /\
    ipfs w' = Some conf /\
    trace w' = trace w ++ map EvResolve dids ++
               [EvCreateShares dids keys;
                EvAddJSON conf (JsObj.set "recoveryNetwork" rn (document t));
                EvCreatePublishTxParams hash (address r)].
Proof.
  intros H.
  destruct (updateDelegates_ok E _ _ _ _ _ _ H)
    as (keys & w1 & rn & hash & w3 & _ & Hp & Hs & Hadd & Hanchor & Ht').
  destruct (anchor_ok _ _ _ _ _ _ Hanchor)
    as (tx & signed & _ & _ & _ & Haddr & _ & Hw').
  destruct (ipfs_addJSON_ok _ _ _ _ Hadd) as (conf & Hi & Hj & Hw3).
  pose proof (promise_all_delegate_key_world None dids w) as [Htr Hip].
  rewrite Hp in Htr, Hip. cbn [snd] in Htr, Hip.
  rewrite resolutions_none in Htr.
  exists keys, rn, hash, conf, w1.
  split; [exact Hp|]. rewrite Htr in Hs. split; [exact Hs|].
  cbn [log ipfs trace] in Hi, Hj. rewrite Hip in Hi. split; [exact Hi|].
  rewrite Htr, <- app_assoc in Hj. split; [exact Hj|].
  split; [exact Ht'|]. split; [exact Haddr|].
  subst w' w3. cbn [log ipfs trace set_recoveryNetwork document].
  rewrite Hip, Htr, Haddr. split; [exact Hi|].
  now rewrite <- !app_assoc.
Qed.

(** X8: the calls of a successful [updateDelegates], all of them and in
    order: one resolution per delegate (without registering the resolver),
    one [createShares], one publication, of the stored document, through
    the current [ipfs] handle, and one [createPublishTxParams] for the new
    content address; no keyring is generated and nothing is broadcast. *)
Theorem updateDelegates_calls (dids : list string) (t t' : MuPort K)
    (w w' : World) (r : UpdateResult) :
  updateDelegates E dids (t, w) = (Ok r, (t', w')) ->
  exists keys conf hash,
    ipfs w = Some conf /\ ipfs w' = Some conf /\
    documentHash t' = Some hash /\
    trace w' = trace w ++ map EvResolve dids ++
               [EvCreateShares dids keys;
                EvAddJSON conf (document t');
                EvCreatePublishTxParams hash (address r)].
Proof.
  intros H.
  destruct (updateDelegates_ok_stages _ _ _ _ _ _ H)
    as (keys & rn & hash & conf & w1 & _ & _ & Hi & _ & Ht' & _ & Hi' & Htr).
  exists keys, conf, hash. subst t'. repeat split; assumption.
Qed.

(** X9: what a successful [updateDelegates] changes in the instance.  The
    identifier, the keyring and the ledger utilities are untouched; in the
    document only [recoveryNetwork] is assigned (every other field keeps
    its value, every key its place, and a [recoveryNetwork] that was not
    there is added last); [documentHash] becomes the content address that
    the store returned for exactly the stored document.  The identifier
    therefore no longer names the current content address. *)
Theorem updateDelegates_state (dids : list string) (t t' : MuPort K)
    (w w' : World) (r : UpdateResult) :
  updateDelegates E dids (t, w) = (Ok r, (t', w')) ->
  did t' = did t /\ keyring t' = keyring t /\ ethUtils t' = ethUtils t /\
  (forall k, k <> "recoveryNetwork"%string ->
             JsObj.get k (document t') = JsObj.get k (document t)) /\
  keys_of (document t')
    = keys_of (document t) ++
      (if JsObj.has "recoveryNetwork" (document t) then []
       else ["recoveryNetwork"%string]) /\
  exists keys rn conf h hash,
    createShares E (keyring t) h dids keys = Fulfilled rn /\
    JsObj.get "recoveryNetwork" (document t') = Some rn /\
    addJSONAsync E conf (h ++ [EvCreateShares dids keys]) (document t')
      = Fulfilled hash /\
    documentHash t' = Some hash.
Proof.
  intros H.
  destruct (updateDelegates_ok_stages _ _ _ _ _ _ H)
    as (keys & rn & hash & conf & w1 & _ & Hs & _ & Hj & Ht' & _).
  subst t'. cbn. repeat split.
  - intros k Hk. now apply JsObjFacts.get_set_other.
  - apply keys_of_set.
  - exists keys, rn, conf, (trace w ++ map EvResolve dids), hash.
    rewrite <- app_assoc. repeat split; auto.
    apply JsObjFacts.get_set_same.
Qed.

(** X10: [createShares] is given the delegates as passed and, in the same
    order, one key per delegate: the [publicKeyBase64] of the first key of
    the delegate's resolved DID document whose id contains
    ['#encryptionKey']. *)
Theorem updateDelegates_share_keys (dids : list string) (t t' : MuPort K)
    (w w' : World) (r : UpdateResult) :
  updateDelegates E dids (t, w) = (Ok r, (t', w')) ->
  exists keys,
    In (EvCreateShares dids keys) (trace w') /\
    length keys = 3 /\
    Forall2 (fun d key =>
               exists h didDoc ek,
                 resolve E h d = Fulfilled didDoc /\
                 key_of "#encryptionKey" didDoc = Some ek /\
                 key = publicKeyBase64 ek) dids keys.
Proof.
  intros H.
  destruct (updateDelegates_ok E _ _ _ _ _ _ H)
    as (keys0 & w10 & rn0 & hash0 & w30 & Hlen & Hp0 & _).
  destruct (updateDelegates_ok_stages _ _ _ _ _ _ H)
    as (keys & rn & hash & conf & w1 & Hp & _ & _ & _ & _ & _ & _ & Htr).
  exists keys. split.
  { rewrite Htr. apply in_or_app. right. apply in_or_app. right. now left. }
  pose proof (promise_all_ok _ _ _ _ _ Hp) as Hall.
  split.
  { apply Forall2_length in Hall. congruence. }
  eapply Forall2_impl; [|exact Hall].
  intros d key [w0 Hk]. exact (delegate_key_ok None d w0 key Hk).
Qed.

(** X11: a successful [updateDelegates] does not touch the encrypted
    delegate list: [getRecoveryDelegateDids] returns after the update what
    it returned before it (the old delegates, not the new ones). *)
Theorem updateDelegates_keeps_delegate_list (dids : list string)
    (t t' : MuPort K) (w w' : World) (r : UpdateResult) :
  updateDelegates E dids (t, w) = (Ok r, (t', w')) ->
  JsObj.get "symEncryptedData" (document t')
    = JsObj.get "symEncryptedData" (document t) /\
  forall w2 w3,
    fst (getRecoveryDelegateDids E (t', w2))
      = fst (getRecoveryDelegateDids E (t, w3)).
Proof.
  intros H.
  destruct (updateDelegates_ok E _ _ _ _ _ _ H)
    as (keys & w1 & rn & hash & w3 & _ & _ & _ & _ & _ & Ht').
  assert (Hd : JsObj.get "symEncryptedData" (document t')
               = JsObj.get "symEncryptedData" (document t)).
  { subst t'. cbn. now apply JsObjFacts.get_set_other. }
  split; [exact Hd|]. intros w2 w4.
  apply getRecoveryDelegateDids_congr; [exact Hd | now subst t'].
Qed.

(** X12: when one of three delegates cannot be resolved the whole update
    fails, with the resolver's rejection or a [TypeError]; every delegate
    has been asked for, nothing else has been called (no share is created,
    nothing is published) and the instance is untouched. *)
Theorem updateDelegates_unresolved (dids : list string) (d : string)
    (t : MuPort K) (w : World) :
  length dids = 3 -> In d dids ->
  (forall h, exists reason, resolve E h d = Failed reason) ->
  exists e w',
    updateDelegates E dids (t, w) = (Throw e, (t, w')) /\
    resolution_error e /\
    trace w' = trace w ++ map EvResolve dids /\
    ipfs w' = ipfs w.
Proof.
  intros Hlen Hin Hd.
  rewrite updateDelegates_unfold. apply Nat.eqb_eq in Hlen. rewrite Hlen.
  cbn [negb].
  assert (Hfail : forall s, exists e, fst (delegate_key E None d s) = Throw e).
  { intros s. rewrite delegate_key_run. cbn [fst registered].
    destruct (Hd (trace s)) as [reason Hr]. rewrite Hr. eauto. }
  destruct (promise_all_rejected (delegate_key E None) dids d Hin Hfail w)
    as [e He].
  pose proof (raises_promise_all resolution_error (delegate_key E None)
                dids (raises_delegate_key E None) w e He) as Hres.
  pose proof (promise_all_delegate_key_world None dids w) as [Htr Hip].
  rewrite resolutions_none in Htr.
  destruct (promise_all (delegate_key E None) dids w) as [r w1].
  cbn [fst snd] in *. subst r.
  exists e, w1. repeat split; assumption.
Qed.

(** X13: the [ipfs] handle is module-wide.  Once an instance has been
    constructed, an update of any instance publishes through the handle
    that this latest construction built: the given [ipfsConf], or
    [IPFS_CONF] when it is falsy. *)
Theorem updateDelegates_latest_handle (opts : Opts SK) (w w2 w' : World)
    (t2 t t' : MuPort K) (dids : list string) (r : UpdateResult) :
  constructor E opts w = (Ok t2, w2) ->
  updateDelegates E dids (t, w2) = (Ok r, (t', w')) ->
  In (EvAddJSON (handle (o_ipfsConf opts)) (document t')) (trace w').
Proof.
  intros Hc H.
  destruct (updateDelegates_ok_stages _ _ _ _ _ _ H)
    as (keys & rn & hash & conf & w1 & _ & _ & Hi & _ & Ht' & _ & _ & Htr).
  assert (Hconf : ipfs w2 = Some (handle (o_ipfsConf opts))).
  { unfold constructor in Hc.
    destruct (o_did opts) as [d|]; [|discriminate].
    destruct (o_document opts) as [doc|]; [|discriminate].
    destruct (o_keyring opts) as [kr|]; [|discriminate].
    destruct (d =? "")%string; [discriminate|].
    unfold bind, initIpfs, registerMuportResolver, ret in Hc.
    inversion Hc; subst. reflexivity. }
  rewrite Hconf in Hi. inversion Hi; subst conf.
  rewrite Htr. subst t'. cbn [republished set_documentHash set_recoveryNetwork document].
  apply in_or_app. right. apply in_or_app. right. right. now left.
Qed.

End UpdateCalls.

(** ** [newIdentity] and [recoverIdentity]: calls and state *)

Section StaticCalls.

Context {K SK : Type} (E : Env K SK).

Lemma newIdentity_unfold (name : JsVal) (delegateDids : option (list string))
    (opts : Opts SK) (w : World) :
  newIdentity E name delegateDids opts w =
  let kr := Keyring_new E (trace w) in
  match share_with E kr delegateDids opts (prepared opts w) with
  | (Throw e, w1) => (Throw e, w1)
  | (Ok shared, w1) =>
      match ipfs_addJSON E (assembled E name kr shared) w1 with
      | (Throw e, w2) => (Throw e, w2)
      | (Ok docHash, w2) =>
          constructor E (with_opts (did_prefix ++ docHash)%string
                                   (assembled E name kr shared) (Some docHash)
                                   (serialize E kr) opts) w2
      end
  end.
Proof.
  unfold newIdentity. unfold bind at 1. unfold initIpfs at 1.
  unfold bind at 1. cbn [trace]. unfold bind at 1.
  fold (share_with E (Keyring_new E (trace w)) delegateDids opts).
  cbv zeta. unfold prepared, handle.
  match goal with |- context [share_with E ?kr ?dd ?o ?w0] =>
    destruct (share_with E kr dd o w0) as [[shared|e] w1] end;
    [|reflexivity].
  unfold bind at 1.
  fold (assembled E name (Keyring_new E (trace w)) shared).
  destruct (ipfs_addJSON E _ w1) as [[docHash|e] w2]; reflexivity.
Qed.

(** The constructor as [newIdentity] and [recoverIdentity] call it: with an
    identifier, a document and a keyring of their own. *)
Lemma constructor_run (opts : Opts SK) (w : World) :
  constructor E opts w =
  if data_missing opts then (Throw DataMissing, w)
  else
    match o_did opts, o_document opts, o_keyring opts with
    | Some d, Some doc, Some kr =>
        (Ok {| did := d;
               document := doc;
               documentHash := str_or (o_documentHash opts) (did_segment2 d);
               keyring := Keyring_restore E kr;
               ethUtils := o_rpcProviderUrl opts |},
         log (EvRegisterResolver (o_ipfsConf opts) (o_rpcProviderUrl opts))
             {| ipfs := Some (handle (o_ipfsConf opts)); trace := trace w |})
    | _, _, _ => (Throw DataMissing, w)
    end.
Proof.
  unfold constructor, data_missing, str_truthy.
  destruct (o_did opts) as [d|]; [|reflexivity].
  destruct (o_document opts) as [doc|];
    [|destruct (d =? "")%string; reflexivity].
  destruct (o_keyring opts) as [kr|];
    [|destruct (d =? "")%string; reflexivity].
  destruct (d =? "")%string; reflexivity.
Qed.

Lemma constructor_handle (opts : Opts SK) (w : World) :
  ipfs w = Some (handle (o_ipfsConf opts)) ->
  ipfs (snd (constructor E opts w)) = Some (handle (o_ipfsConf opts)).
Proof.
  intros Hw. rewrite constructor_run.
  destruct (data_missing opts); [exact Hw|].
  destruct (o_did opts), (o_document opts), (o_keyring opts);
    first [exact Hw | reflexivity].
Qed.

(** The outgoing calls of the constructor: the registration of the
    resolver when it succeeds, none when it throws. *)
Lemma constructor_trace (opts : Opts SK) (w : World) :
  trace (snd (constructor E opts w))
  = trace w ++
    match fst (constructor E opts w) with
    | Ok _ => [EvRegisterResolver (o_ipfsConf opts) (o_rpcProviderUrl opts)]
    | Throw _ => []
    end.
Proof.
  rewrite constructor_run.
  destruct (data_missing opts); [cbn; now rewrite app_nil_r|].
  destruct (o_did opts), (o_document opts), (o_keyring opts); cbn;
    now rewrite ?app_nil_r.
Qed.

Lemma symEncryptDelegateDids_handle (kr : K) (dids : list string) (w : World) :
  ipfs (snd (symEncryptDelegateDids E kr dids w)) = ipfs w.
Proof.
  revert w. induction dids as [|d dids IH]; intros w; [reflexivity|].
  rewrite symEncryptDelegateDids_cons, encryptDid_run.
  destruct (did_segment2 d) as [hash|]; [|reflexivity].
  destruct (bs58_decode E hash) as [b|r]; [|reflexivity].
  specialize (IH (log (EvSymEncrypt b) w)).
  destruct (symEncryptDelegateDids E kr dids _) as [[encs|e] w1]; exact IH.
Qed.

Lemma share_with_handle (kr : K) (delegateDids : option (list string))
    (opts : Opts SK) (w : World) :
  ipfs (snd (share_with E kr delegateDids opts w)) = ipfs w.
Proof.
  destruct delegateDids as [dids|]; [|reflexivity].
  unfold share_with. unfold bind at 1.
  pose proof (promise_all_delegate_key_world E (Some opts) dids w) as [_ Hp].
  destruct (promise_all _ dids w) as [[keys|e] w1]; cbn [snd] in *;
    [|exact Hp].
  unfold bind at 1, call at 1.
  destruct (createShares E kr (trace w1) dids keys) as [rn|r]; [|exact Hp].
  unfold bind at 1.
  pose proof (symEncryptDelegateDids_handle kr dids
                (log (EvCreateShares dids keys) w1)) as Hs.
  destruct (symEncryptDelegateDids E kr dids _) as [[encs|e] w2];
    cbn [snd ret] in *; rewrite Hs; exact Hp.
Qed.

(** X14: whatever its outcome, [newIdentity] leaves the module-wide
    [ipfs] handle rebuilt from its own [opts] (the given [ipfsConf], or
    [IPFS_CONF] when it is falsy): a later update of any other instance
    publishes through it, also when this creation failed. *)
Theorem newIdentity_rebuilds_handle (name : JsVal)
    (delegateDids : option (list string)) (opts : Opts SK) (w : World) :
  ipfs (snd (newIdentity E name delegateDids opts w))
    = Some (handle (o_ipfsConf opts)).
Proof.
  rewrite newIdentity_unfold. cbv zeta.
  pose proof (share_with_handle (Keyring_new E (trace w)) delegateDids opts
                (prepared opts w)) as Hs.
  destruct (share_with E _ delegateDids opts _) as [[shared|e] w1];
    cbn [snd] in *; [|exact Hs].
  unfold ipfs_addJSON, call. rewrite Hs. cbn [prepared log ipfs].
  destruct (addJSONAsync E _ (trace w1) _) as [docHash|r]; [|exact Hs].
  apply (constructor_handle
           (with_opts (did_prefix ++ docHash)%string
                      (assembled E name (Keyring_new E (trace w)) shared)
                      (Some docHash) (serialize E (Keyring_new E (trace w)))
                      opts)).
  exact Hs.
Qed.

(** X15: an identity created without delegates makes no resolution,
    creates no shares and encrypts nothing: whatever the outcome, the only
    calls are the generation of the keyring and the publication of the
    assembled document, followed by the registration of the resolver when
    the creation succeeds. *)
Theorem newIdentity_without_delegates_calls (name : JsVal) (opts : Opts SK)
    (w : World) :
  let kr := Keyring_new E (trace w) in
  let doc := assembled E name kr (VUndefined, VUndefined) in
  trace (snd (newIdentity E name None opts w))
  = trace w ++
    [EvNewKeyring; EvAddJSON (handle (o_ipfsConf opts)) doc] ++
    match fst (newIdentity E name None opts w) with
    | Ok _ => [EvRegisterResolver (o_ipfsConf opts) (o_rpcProviderUrl opts)]
    | Throw _ => []
    end.
Proof.
  cbv zeta. rewrite newIdentity_unfold. cbv zeta.
  cbn [share_with ret]. unfold ipfs_addJSON, call. cbn [prepared log ipfs trace].
  destruct (addJSONAsync E _ _ _) as [docHash|r]; [|cbn; now rewrite <- app_assoc].
  rewrite constructor_trace. cbn [log trace with_opts o_ipfsConf o_rpcProviderUrl].
  unfold prepared. cbn [log trace]. now rewrite <- !app_assoc.
Qed.

(** X16: an empty delegate list is not "no delegates": [[]] is truthy, so
    [newIdentity] asks [createShares] for shares of no delegates, resolves
    nobody, and on success stores an empty encrypted list, which reads
    back as no delegates. *)
Theorem newIdentity_empty_list (name : JsVal) (opts : Opts SK)
    (w w' : World) (t : MuPort K) :
  o_document opts = None ->
  newIdentity E name (Some []) opts w = (Ok t, w') ->
  exists rn,
    createShares E (Keyring_new E (trace w)) (trace w ++ [EvNewKeyring]) [] []
      = Fulfilled rn /\
    In (EvCreateShares [] []) (trace w') /\
    JsObj.get "recoveryNetwork" (document t)
      = (if truthy rn then Some rn else None) /\
    JsObj.get "symEncryptedData" (document t)
      = Some (VObj [("symEncDids", VArr [])]) /\
    forall w2, getRecoveryDelegateDids E (t, w2) = (Ok [], (t, w2)).
Proof.
  intros Ho. rewrite newIdentity_unfold. cbv zeta.
  unfold share_with, promise_all. cbn [settle collect].
  unfold bind at 1. unfold bind at 1, call at 1.
  cbn [prepared log trace].
  destruct (createShares E _ _ [] []) as [rn|r] eqn:Hs; [|discriminate].
  cbn [symEncryptDelegateDids mapM]. unfold bind at 1. cbn [ret].
  set (doc := assembled E name (Keyring_new E (trace w)) (rn, VArr [])).
  unfold ipfs_addJSON, call. unfold prepared. cbn [ipfs log trace].
  destruct (addJSONAsync E _ _ doc) as [docHash|r]; [|discriminate].
  intros H. destruct (constructor_ok _ _ _ _ _ H)
    as (d & doc' & kr & _ & _ & Hdoc & _ & Ht & _).
  simpl in Hdoc. rewrite Ho in Hdoc. simpl in Hdoc. inversion Hdoc; subst doc'.
  pose proof (constructor_trace
                (with_opts (did_prefix ++ docHash)%string doc (Some docHash)
                           (serialize E (Keyring_new E (trace w))) opts)
                (log (EvAddJSON (handle (o_ipfsConf opts)) doc)
                     (log (EvCreateShares [] []) (prepared opts w)))) as Htr.
  unfold prepared in Htr. cbn [log ipfs trace] in Htr.
  rewrite H in Htr. cbn [fst snd] in Htr.
  destruct (createMuportDocument_optional
              (getPublicKeys E (Keyring_new E (trace w))) rn
              (VObj [("name", name)]) (VObj [("symEncDids", VArr [])]))
    as (Hrn & _ & Hsed).
  exists rn. split; [reflexivity|]. split.
  { rewrite Htr. apply in_or_app. left. apply in_or_app. left.
    apply in_or_app. right. now left. }
  subst t. cbn [document]. split; [exact Hrn|]. split; [exact Hsed|].
  intros w2. rewrite getRecoveryDelegateDids_run. cbn [document].
  unfold JsObj.prop at 1. unfold doc, assembled. cbn [fst snd].
  cbn [truthy] in Hsed. rewrite Hsed. reflexivity.
Qed.

End StaticCalls.

Section Recovery.

Context {K SK : Type} (E : Env K SK).

Lemma recoverIdentity_unfold (d : string) (shares : JsVal) (opts : Opts SK)
    (w : World) :
  recoverIdentity E d shares opts w =
  let w0 := {| ipfs := Some (handle (o_ipfsConf opts)); trace := trace w |} in
  let w1 := log (EvResolve d) (registered (Some opts) w0) in
  match resolve E (trace (registered (Some opts) w0)) d with
  | Failed r => (Throw (Rejected CResolve r), w1)
  | Fulfilled didDoc =>
      match document_of didDoc with
      | Throw e => (Throw e, w1)
      | Ok doc =>
          match recoverKeyring E shares with
          | Failed r => (Throw (Rejected CRecoverKeyring r), w1)
          | Fulfilled kr =>
              constructor E (with_opts d doc None (serialize E kr) opts) w1
          end
      end
  end.
Proof.
  unfold recoverIdentity. unfold bind at 1, initIpfs at 1.
  unfold bind at 1. rewrite resolveIdentityDocument_run. cbv zeta.
  fold (handle (o_ipfsConf opts)).
  destruct (resolve E _ d) as [didDoc|r]; [|reflexivity].
  destruct (document_of didDoc) as [doc|e]; [|reflexivity].
  unfold bind. destruct (recoverKeyring E shares); reflexivity.
Qed.

(** X17: a successful [recoverIdentity] builds the instance from what the
    resolver delivered and from the keyring recovered from the shares: its
    document is the document built from the DID document (version 1), its
    keyring the recovered one, serialized and restored.  It publishes
    nothing and generates no keyring: its calls are one resolution between
    two registrations of the resolver. *)
Theorem recoverIdentity_result (d : string) (shares : JsVal) (opts : Opts SK)
    (w w' : World) (t : MuPort K) :
  recoverIdentity E d shares opts w = (Ok t, w') ->
  exists didDoc kr,
    resolve E (trace w ++ [EvRegisterResolver (o_ipfsConf opts)
                                              (o_rpcProviderUrl opts)]) d
      = Fulfilled didDoc /\
    recoverKeyring E shares = Fulfilled kr /\
    (o_document opts = None -> document_of didDoc = Ok (document t)) /\
    (o_keyring opts = None ->
     keyring t = Keyring_restore E (serialize E kr)) /\
    ipfs w' = Some (handle (o_ipfsConf opts)) /\
    trace w' = trace w ++
      [EvRegisterResolver (o_ipfsConf opts) (o_rpcProviderUrl opts);
       EvResolve d;
       EvRegisterResolver (o_ipfsConf opts) (o_rpcProviderUrl opts)].
Proof.
  rewrite recoverIdentity_unfold. cbv zeta. cbn [registered log trace].
  destruct (resolve E _ d) as [didDoc|r] eqn:Hres; [|discriminate].
  destruct (document_of didDoc) as [doc|e] eqn:Hdoc; [|discriminate].
  destruct (recoverKeyring E shares) as [kr|r] eqn:Hkr; [|discriminate].
  intros H. exists didDoc, kr. split; [reflexivity|]. split; [reflexivity|].
  match type of H with constructor E ?o ?w0 = _ =>
    pose proof (constructor_trace E o w0) as Htr;
    pose proof (constructor_handle E o w0 eq_refl) as Hh end.
  rewrite H in Htr, Hh. cbn [fst snd] in Htr, Hh.
  destruct (constructor_ok _ _ _ _ _ H)
    as (d' & doc' & kr' & _ & _ & Hd & Hk & Ht & _).
  simpl in Hd, Hk. subst t. cbn [document keyring].
  repeat split.
  - intros Ho. rewrite Ho in Hd. simpl in Hd. inversion Hd; subst doc'.
    exact Hdoc.
  - intros Ho. rewrite Ho in Hk. simpl in Hk. now inversion Hk.
  - exact Hh.
  - rewrite Htr. cbn. now rewrite <- !app_assoc.
Qed.

(** X18: [recoverIdentity] resolves before it looks at the shares and
    checks the identifier last: when the resolver rejects, that rejection
    is the outcome whatever the shares are; and with the empty identifier
    (and no identifier in [opts]) it never succeeds, although the resolver
    has been asked for it. *)
Theorem recoverIdentity_order (d : string) (shares : JsVal) (opts : Opts SK)
    (w : World) :
  (forall reason,
     resolve E (trace w ++ [EvRegisterResolver (o_ipfsConf opts)
                                               (o_rpcProviderUrl opts)]) d
       = Failed reason ->
     fst (recoverIdentity E d shares opts w)
       = Throw (Rejected CResolve reason)) /\
  (d = ""%string -> o_did opts = None ->
   exists e, fst (recoverIdentity E d shares opts w) = Throw e) /\
  In (EvResolve d) (trace (snd (recoverIdentity E d shares opts w))).
Proof.
  rewrite recoverIdentity_unfold. cbv zeta. cbn [registered log trace].
  split; [|split].
  - intros reason Hr. now rewrite Hr.
  - intros -> Ho.
    destruct (resolve E _ "") as [didDoc|r]; [|eexists; reflexivity].
    destruct (document_of didDoc) as [doc|e]; [|eexists; reflexivity].
    destruct (recoverKeyring E shares) as [kr|r]; [|eexists; reflexivity].
    rewrite constructor_missing; [eexists; reflexivity|].
    unfold data_missing, with_opts. cbn [o_did o_document o_keyring].
    rewrite Ho. reflexivity.
  - assert (Hin : forall (r : Result (MuPort K)) w1,
              In (EvResolve d) (trace w1) ->
              In (EvResolve d) (trace (snd (r, w1)))) by auto.
    assert (Hbase : In (EvResolve d)
              ((trace w ++ [EvRegisterResolver (o_ipfsConf opts)
                                               (o_rpcProviderUrl opts)])
               ++ [EvResolve d])).
    { apply in_or_app. right. now left. }
    destruct (resolve E _ d) as [didDoc|r]; [|exact Hbase].
    destruct (document_of didDoc) as [doc|e]; [|exact Hbase].
    destruct (recoverKeyring E shares) as [kr|r]; [|exact Hbase].
    rewrite constructor_trace. cbn [log trace].
    apply in_or_app. left. exact Hbase.
Qed.

End Recovery.

(** ** [helpRecover] *)

Section HelpRecoverFacts.

Context {K SK : Type} (E : Env K SK).
Variable decryptOneShare : K -> JsVal -> JsVal -> string -> Outcome JsVal.

Lemma helpRecover_run (d : string) (t : MuPort K) (w : World) :
  helpRecover E decryptOneShare d (t, w) =
  (match resolve E (trace w) d with
   | Fulfilled didDoc =>
       match document_of didDoc with
       | Ok doc =>
           Ok (decryptOneShare (keyring t)
                 (JsObj.prop "recoveryNetwork" doc)
                 (JsObj.prop "asymEncryptionKey" doc) (did t))
       | Throw e => Throw e
       end
   | Failed r => Throw (Rejected CResolve r)
   end,
   (t, log (EvResolve d) w)).
Proof.
  unfold helpRecover. unfold bind at 1, world at 1. cbn [fst snd].
  rewrite resolveIdentityDocument_run. cbn [registered].
  destruct (resolve E (trace w) d) as [didDoc|r]; [|reflexivity].
  destruct (document_of didDoc); reflexivity.
Qed.

(** X19: [helpRecover] never changes the helper's instance and makes one
    call, the resolution of the target.  When that fails (rejection, or a
    DID document without one of the three keys) the keyring is not asked;
    otherwise the outcome is that of [decryptOneShare] on the target's
    recovery network ([undefined] when the target has none, or a falsy
    one), the target's encryption key, and the helper's own identifier. *)
Theorem helpRecover_outcome (d : string) (t : MuPort K) (w : World) :
  snd (helpRecover E decryptOneShare d (t, w)) = (t, log (EvResolve d) w) /\
  match fst (helpRecover E decryptOneShare d (t, w)) with
  | Throw e => resolution_error e
  | Ok outcome =>
      exists didDoc ek,
        resolve E (trace w) d = Fulfilled didDoc /\
        key_of "#encryptionKey" didDoc = Some ek /\
        outcome =
          decryptOneShare (keyring t)
            (if truthy (md_recoveryNetwork (muportData didDoc))
             then md_recoveryNetwork (muportData didDoc) else VUndefined)
            (publicKeyBase64 ek) (did t)
  end.
Proof.
  rewrite helpRecover_run. cbn [fst snd]. split; [reflexivity|].
  destruct (resolve E (trace w) d) as [didDoc|r] eqn:Hres.
  2:{ right. eauto. }
  unfold document_of.
  destruct (key_of "#signingKey" didDoc) as [sk|]; [|now left].
  destruct (key_of "#managementKey" didDoc) as [mk|]; [|now left].
  destruct (key_of "#encryptionKey" didDoc) as [ek|] eqn:Hek; [|now left].
  exists didDoc, ek. split; [reflexivity|]. split; [exact Hek|].
  unfold createMuportDocument, JsObj.prop.
  destruct (truthy (md_recoveryNetwork (muportData didDoc))),
           (truthy (md_symEncryptedData (muportData didDoc))); reflexivity.
Qed.

End HelpRecoverFacts.

(** ** Documents, for any object of public keys *)

Lemma get_absent (k : string) (o : Obj) :
  ~ In k (keys_of o) -> JsObj.get k o = None.
Proof.
  intros H. pose proof (JsObjFacts.has_get k o) as Hg.
  destruct (JsObj.get k o); [|reflexivity].
  exfalso. apply H. now apply has_keys_of.
Qed.

Lemma get_spread (k : string) (source target : Obj) :
  NoDup (keys_of source) ->
  JsObj.get k (JsObj.spread target source) =
  match JsObj.get k source with
  | Some v => Some v
  | None => JsObj.get k target
  end.
Proof.
  unfold JsObj.spread. revert target.
  induction source as [|[k0 v0] source IH]; intros target Hnd; [reflexivity|].
  inversion Hnd as [|? ? Hnotin Hnd']; subst. cbn [fold_left fst snd].
  rewrite (IH _ Hnd'). cbn [JsObj.get].
  destruct (k =? k0)%string eqn:Hk.
  - apply String.eqb_eq in Hk. subst k0.
    rewrite (get_absent k source Hnotin). apply JsObjFacts.get_set_same.
  - apply String.eqb_neq in Hk.
    destruct (JsObj.get k source); [reflexivity|].
    now apply JsObjFacts.get_set_other.
Qed.


(** X20: the fields of a built document, for any object of public keys
    (with each key once).  A truthy optional input is stored under its
    name; for every other name the document has what [publicKeys] has
    under it, so a [version] among the public keys replaces the version 1,
    and an optional field that is absent is only omitted if [publicKeys]
    does not carry that name. *)
Theorem createMuportDocument_lookup (publicKeys : Obj) (rn pp sed : JsVal)
    (k : string) :
  NoDup (keys_of publicKeys) ->
  JsObj.get k (createMuportDocument publicKeys rn pp sed) =
  if (k =? "symEncryptedData")%string && truthy sed then Some sed
  else if (k =? "publicProfile")%string && truthy pp then Some pp
  else if (k =? "recoveryNetwork")%string && truthy rn then Some rn
  else match JsObj.get k publicKeys with
       | Some v => Some v
       | None => if (k =? "version")%string then Some (VNum 1) else None
       end.
Proof.
  intros Hnd. unfold createMuportDocument.
  assert (Hset : forall k' v o,
            JsObj.get k (JsObj.set k' v o)
            = if (k =? k')%string then Some v else JsObj.get k o).
  { intros k' v o. destruct (k =? k')%string eqn:Hk.
    - apply String.eqb_eq in Hk. subst k'. apply JsObjFacts.get_set_same.
    - apply String.eqb_neq in Hk. now apply JsObjFacts.get_set_other. }
  assert (Hbase : JsObj.get k (JsObj.spread [("version", VNum 1)] publicKeys)
                  = match JsObj.get k publicKeys with
                    | Some v => Some v
                    | None => if (k =? "version")%string
                              then Some (VNum 1) else None
                    end).
  { rewrite (get_spread k publicKeys _ Hnd). reflexivity. }
  destruct (truthy sed), (truthy pp), (truthy rn);
    rewrite ?Hset, ?Hbase, ?andb_true_r, ?andb_false_r;
    destruct (k =? "symEncryptedData")%string eqn:H1;
    destruct (k =? "publicProfile")%string eqn:H2;
    destruct (k =? "recoveryNetwork")%string eqn:H3;
    try reflexivity;
    repeat match goal with
           | H : (_ =? _)%string = true |- _ => apply String.eqb_eq in H
           end; subst; discriminate.
Qed.


(** ** Identifiers and buffers *)

Section Identifiers.

Context {K SK : Type} (E : Env K SK).

(** X22: [didToBuffer] after [bufferToDid] gives the buffer back, when
    [bs58] decodes what it encoded and its encoding has no colon; and an
    identifier without any colon has no third segment, so [didToBuffer]
    throws a [TypeError] on it without calling [bs58]. *)
Theorem didToBuffer_bufferToDid {S : Type} (b : Buffer) (d : string) (s : S) :
  (bs58_decode E (bs58_encode E b) = Fulfilled b ->
   JsString.mem colon (bs58_encode E b) = false ->
   didToBuffer E (bufferToDid E b) s = (Ok b, s)) /\
  (JsString.mem colon d = false ->
   didToBuffer E d s = (Throw TypeError, s)).
Proof.
  split.
  - intros Hdec Hcolon. unfold didToBuffer, bufferToDid.
    rewrite (did_segment2_prefix _ Hcolon), Hdec. reflexivity.
  - intros Hcolon. unfold didToBuffer, did_segment2.
    rewrite (JsStringFacts.split_no_sep colon d Hcolon). reflexivity.
Qed.

(** The encrypted list of identifiers that decode canonically reads back
    as their normal forms. *)
Lemma decrypt_encrypted_normalised (kr : K) (dids : list string) :
  symDecrypt_inverts_symEncrypt E ->
  Forall (fun d => exists hash,
            did_segment2 d = Some hash /\ bs58_canonical E hash) dids ->
  forall w encs w',
    symEncryptDelegateDids E kr dids w = (Ok encs, w') ->
    forall s,
      mapM (decryptDid E (Keyring_restore E (serialize E kr))) encs s
      = (Ok (map normalised dids), s).
Proof.
  intros Hinv Hall. induction Hall as [|d dids Hd _ IH]; intros w encs w'.
  - simpl. intros H. inversion H; subst. reflexivity.
  - rewrite symEncryptDelegateDids_cons, encryptDid_run.
    destruct Hd as (hash & Hseg & b & Hdec & Henc).
    rewrite Hseg, Hdec.
    destruct (symEncryptDelegateDids E kr dids _) as [[encs'|e] w1] eqn:Hrest;
      [|discriminate].
    intros H. inversion H; subst encs w'. intros s.
    destruct (Hinv kr (trace w) b) as (c & n & Hc & Hn & Hsym).
    rewrite decryptDid_cons.
    unfold decryptDid at 1, bind, get_prop.
    rewrite Hc, Hn, Hsym. cbn [attempt ret].
    rewrite (IH _ _ _ Hrest s). cbn [map].
    unfold bufferToDid, normalised. now rewrite Henc, Hseg.
Qed.

(** X23: only the third colon-separated segment of a delegate's
    identifier is stored.  For an identity created with delegates whose
    third segments are canonical base-58, whatever their method name and
    whatever follows the third segment, [getRecoveryDelegateDids] returns,
    in order, ['did:muport:'] followed by that segment (assuming, as for
    identifiers of the scheme, that [symDecrypt] inverts [symEncrypt]). *)
Theorem delegate_list_normalised (name : JsVal) (dids : list string)
    (opts : Opts SK) (w w' : World) (t : MuPort K) :
  symDecrypt_inverts_symEncrypt E ->
  Forall (fun d => exists hash,
            did_segment2 d = Some hash /\ bs58_canonical E hash) dids ->
  o_document opts = None -> o_keyring opts = None ->
  newIdentity E name (Some dids) opts w = (Ok t, w') ->
  forall w2,
    getRecoveryDelegateDids E (t, w2) = (Ok (map normalised dids), (t, w2)).
Proof.
  intros Hinv Hall Hodoc Hokr H w2.
  destruct (newIdentity_ok _ _ _ _ _ _ _ H)
    as (w0 & shared & w1 & docHash & wp & Hs & _ & Hc).
  cbv zeta in Hs, Hc.
  set (kr := Keyring_new E (trace w)) in *.
  unfold share_with, bind in Hs.
  destruct (promise_all _ dids w0) as [[keys|e] wa]; [|discriminate].
  destruct (call CCreateShares _ _ wa) as [[rn|e] wb]; [|discriminate].
  destruct (symEncryptDelegateDids E kr dids wb) as [[encs|e] wc] eqn:Henc;
    [|discriminate].
  cbn [ret] in Hs. inversion Hs; subst shared wc.
  destruct (constructor_ok _ _ _ _ _ Hc)
    as (d & doc & skr & _ & _ & Hdoc & Hkr & Ht & _).
  simpl in Hdoc, Hkr. rewrite Hodoc in Hdoc. rewrite Hokr in Hkr.
  simpl in Hdoc, Hkr. inversion Hdoc; subst doc. inversion Hkr; subst skr.
  destruct (createMuportDocument_optional (getPublicKeys E kr) rn
              (VObj [("name", name)]) (VObj [("symEncDids", VArr encs)]))
    as (_ & _ & Hsed).
  cbn [truthy] in Hsed.
  rewrite getRecoveryDelegateDids_run. subst t. cbn [document keyring].
  unfold JsObj.prop at 1. unfold assembled. cbn [fst snd].
  rewrite Hsed. cbn [read_prop JsObj.prop JsObj.get String.eqb].

  exact (decrypt_encrypted_normalised kr dids Hinv Hall _ _ _ Henc _).
Qed.

End Identifiers.

(** ** Invariant and failures *)

Section Invariant.

Context {K SK : Type} (E : Env K SK).

(** X24: every instance the module hands out is [restorable] (its
    identifier is not empty and its content address is a non-empty string
    or the third segment of the identifier), whether it comes from the
    constructor, [newIdentity] or [recoverIdentity]; a successful
    [updateDelegates] keeps this as long as the store does not answer with
    the empty content address. *)
Theorem restorable_invariant :
  (forall opts w t w',
     constructor E opts w = (Ok t, w') -> restorable t) /\
  (forall name delegateDids opts w t w',
     newIdentity E name delegateDids opts w = (Ok t, w') -> restorable t) /\
  (forall d shares opts w t w',
     recoverIdentity E d shares opts w = (Ok t, w') -> restorable t) /\
  (forall dids t t' w w' r,
     restorable t ->
     (forall conf h doc, addJSONAsync E conf h doc <> Fulfilled ""%string) ->
     updateDelegates E dids (t, w) = (Ok r, (t', w')) ->
     restorable t').
Proof.
  split; [|split; [|split]].
  - intros opts w t w'. apply constructor_restorable.
  - intros name dd opts w t w' H.
    destruct (newIdentity_ok _ _ _ _ _ _ _ H)
      as (w0 & shared & w1 & docHash & w2 & _ & _ & Hc).
    exact (constructor_restorable _ _ _ _ _ Hc).
  - intros d shares opts w t w'. rewrite recoverIdentity_unfold. cbv zeta.
    destruct (resolve E _ d) as [didDoc|r]; [|discriminate].
    destruct (document_of didDoc) as [doc|e]; [|discriminate].
    destruct (recoverKeyring E shares) as [kr|r]; [|discriminate].
    apply constructor_restorable.
  - intros dids t t' w w' r. apply updateDelegates_restorable.
Qed.


End Invariant.

(** ** Further worked examples *)

Module Coverage.
Import Demo Scenario.

(** The document resolved for [D1]. *)
Lemma d1_document_shape :
  resolveIdentityDocument env D1 None w0 = d1_resolution /\
  JsObj.get "version" (returned [] (fst d1_resolution)) = Some (VNum 1) /\
  JsObj.get "publicProfile" (returned [] (fst d1_resolution))
    = Some (VObj [("name", VStr "one")]) /\
  JsObj.get "recoveryNetwork" (returned [] (fst d1_resolution)) = None.
Proof.
  assert (H : resolveIdentityDocument env D1 None w0
              = (Ok (returned [] (fst d1_resolution)), snd d1_resolution))
    by (vm_compute; reflexivity).
  split; [vm_compute; reflexivity|].
  destruct (resolved_document_shape env D1 None w0 _ _ H)
    as (didDoc & sk & mk & ek & Hres & _ & _ & _ & Hv & _ & _ & _ & Hp & Hr & _).
  vm_compute in Hres. inversion Hres; subst didDoc.
  repeat split; assumption.
Defined.

(** A DID document without a management key does not resolve. *)
Lemma keyless_does_not_resolve :
  fst (resolveIdentityDocument sparse "did:muport:x" None w0) = Throw TypeError.
Proof.
  apply (proj1 (resolveIdentityDocument_missing_key sparse "did:muport:x"
                  None w0 keyless eq_refl)).
  exists "#managementKey"%string. split; [simpl; tauto | reflexivity].
Defined.

(** Alice reads the same delegates before and after her rotation. *)
Lemma alice_reads_only :
  snd (getRecoveryDelegateDids env (alice, w0)) = (alice, w0) /\
  fst (getRecoveryDelegateDids env (fst (snd rotation), snd (snd rotation)))
    = fst (getRecoveryDelegateDids env (alice, w0)).
Proof.
  destruct (getRecoveryDelegateDids_reads_only env alice w0) as [Hs Hf].
  split; [exact Hs|].
  apply Hf; reflexivity.
Defined.

(** Bob has no delegates to read; the identity recovered for [D1] cannot
    read any. *)
Lemma edges_of_reading :
  getRecoveryDelegateDids env (bob, w0) = (Ok [], (bob, w0)) /\
  getRecoveryDelegateDids env (returned nobody (fst recovery), w0)
    = (Throw TypeError, (returned nobody (fst recovery), w0)).
Proof.
  split.
  - exact (proj1 (proj2 (getRecoveryDelegateDids_edges env bob w0
                           [("symEncDids", VUndefined)]) eq_refl) eq_refl).
  - exact (proj1 (getRecoveryDelegateDids_edges env
                    (returned nobody (fst recovery)) w0 []) eq_refl).
Defined.

Lemma bob_reads_nothing :
  getRecoveryDelegateDids env (bob, w0) = (Ok [], (bob, w0)).
Proof.
  assert (H : newIdentity env (VStr "Bob") None no_opts w0
              = (Ok bob, snd bob_run)) by (vm_compute; reflexivity).
  exact (no_delegates_read_back env (VStr "Bob") no_opts w0 (snd bob_run) bob
           eq_refl H w0).
Defined.

Lemma recovered_cannot_read :
  getRecoveryDelegateDids env (returned nobody (fst recovery), w0)
    = (Throw TypeError, (returned nobody (fst recovery), w0)).
Proof.
  assert (H : recoverIdentity env D1 VNull no_opts w0
              = (Ok (returned nobody (fst recovery)), snd recovery))
    by (vm_compute; reflexivity).
  exact (recovered_without_delegate_list env D1 VNull no_opts w0
           (snd recovery) (returned nobody (fst recovery))
           (didDoc_of D1 "one") eq_refl eq_refl eq_refl H w0).
Defined.

(** The run of Alice's rotation, as the theorems below take it. *)
Lemma rotation_run :
  updateDelegates env [D4; D5; D6] (alice, snd alice_run)
    = (Ok (returned nothing (fst rotation)),
       (fst (snd rotation), snd (snd rotation))).
Proof. vm_compute; reflexivity. Qed.

Lemma rotation_calls :
  exists keys conf hash,
    ipfs (snd alice_run) = Some conf /\
    documentHash (fst (snd rotation)) = Some hash /\
    trace (snd (snd rotation))
      = trace (snd alice_run) ++ map EvResolve [D4; D5; D6] ++
        [EvCreateShares [D4; D5; D6] keys;
         EvAddJSON conf (document (fst (snd rotation)));
         EvCreatePublishTxParams hash (VStr "0xmanagement")].
Proof.
  destruct (updateDelegates_calls env _ _ _ _ _ _ rotation_run)
    as (keys & conf & hash & Hi & _ & Hh & Htr).
  exists keys, conf, hash. repeat split; assumption.
Defined.

Lemma rotation_state :
  did (fst (snd rotation)) = did alice /\
  keys_of (document (fst (snd rotation))) = keys_of (document alice) /\
  documentHash (fst (snd rotation)) <> documentHash alice.
Proof.
  destruct (updateDelegates_state env _ _ _ _ _ _ rotation_run)
    as (Hd & _ & _ & _ & Hk & _).
  split; [exact Hd|]. split.
  - rewrite Hk. vm_compute. reflexivity.
  - vm_compute. discriminate.
Defined.

Lemma rotation_share_keys :
  exists keys,
    In (EvCreateShares [D4; D5; D6] keys) (trace (snd (snd rotation))) /\
    length keys = 3.
Proof.
  destruct (updateDelegates_share_keys env _ _ _ _ _ _ rotation_run)
    as (keys & Hin & Hlen & _).
  exists keys. split; assumption.
Defined.

Lemma rotation_keeps_delegate_list :
  fst (getRecoveryDelegateDids env (fst (snd rotation), w0))
    = Ok [D1; D2; D3].
Proof.
  destruct (updateDelegates_keeps_delegate_list env _ _ _ _ _ _ rotation_run)
    as [_ H].
  rewrite (H w0 w0). vm_compute. reflexivity.
Defined.

(** With an unknown delegate in the middle, all three are asked for and
    nothing else happens. *)
Lemma unknown_delegate :
  exists e w',
    updateDelegates env [D1; unknown; D3] (alice, snd alice_run)
      = (Throw e, (alice, w')) /\
    trace w' = trace (snd alice_run) ++ map EvResolve [D1; unknown; D3].
Proof.
  destruct (updateDelegates_unresolved env [D1; unknown; D3] unknown alice
              (snd alice_run) eq_refl (or_intror (or_introl eq_refl))
              (fun h => ex_intro _ (VStr "not found") eq_refl))
    as (e & w' & H & _ & Htr & _).
  exists e, w'. split; assumption.
Defined.

(** After a second instance has been constructed with a local store,
    Alice's rotation publishes there. *)
Lemma late_rotation_handle :
  In (EvAddJSON (VStr "http://localhost:5001")
                (document (fst (snd late_rotation))))
     (trace (snd (snd late_rotation))).
Proof.
  assert (Hc : constructor env local_opts (snd alice_run)
               = (Ok (returned nobody (fst second_run)), snd second_run))
    by (vm_compute; reflexivity).
  assert (H : updateDelegates env [D4; D5; D6] (alice, snd second_run)
              = (Ok (returned nothing (fst late_rotation)),
                 (fst (snd late_rotation), snd (snd late_rotation))))
    by (vm_compute; reflexivity).
  exact (updateDelegates_latest_handle env local_opts (snd alice_run)
           (snd second_run) (snd (snd late_rotation))
           (returned nobody (fst second_run)) alice
           (fst (snd late_rotation)) [D4; D5; D6]
           (returned nothing (fst late_rotation)) Hc H).
Defined.

(** The identity created with the empty list. *)
Lemma empty_list_identity :
  JsObj.get "symEncryptedData" (document (returned nobody (fst empty_run)))
    = Some (VObj [("symEncDids", VArr [])]) /\
  getRecoveryDelegateDids lenient (returned nobody (fst empty_run), w0)
    = (Ok [], (returned nobody (fst empty_run), w0)).
Proof.
  assert (H : newIdentity lenient (VStr "Erin") (Some []) no_opts w0
              = (Ok (returned nobody (fst empty_run)), snd empty_run))
    by (vm_compute; reflexivity).
  destruct (newIdentity_empty_list lenient (VStr "Erin") no_opts w0
              (snd empty_run) (returned nobody (fst empty_run)) eq_refl H)
    as (rn & _ & _ & _ & Hsed & Hread).
  split; [exact Hsed | exact (Hread w0)].
Defined.

(** The identity recovered for [D1]. *)
Lemma recovery_result :
  trace (snd recovery)
    = [EvRegisterResolver VUndefined VUndefined; EvResolve D1;
       EvRegisterResolver VUndefined VUndefined] /\
  document_of (didDoc_of D1 "one")
    = Ok (document (returned nobody (fst recovery))).
Proof.
  assert (H : recoverIdentity env D1 VNull no_opts w0
              = (Ok (returned nobody (fst recovery)), snd recovery))
    by (vm_compute; reflexivity).
  destruct (recoverIdentity_result env D1 VNull no_opts w0 (snd recovery)
              (returned nobody (fst recovery)) H)
    as (didDoc & kr & Hres & _ & Hdoc & _ & _ & Htr).
  vm_compute in Hres. inversion Hres; subst didDoc.
  split; [exact Htr | exact (Hdoc eq_refl)].
Defined.

(** An unknown identifier is rejected whatever the shares; the empty
    identifier is resolved and then refused. *)
Lemma recovery_order :
  fst (recoverIdentity env unknown (VStr "shares") no_opts w0)
    = Throw (Rejected CResolve (VStr "not found")) /\
  exists e, fst (recoverIdentity lenient "" VNull no_opts w0) = Throw e.
Proof.
  split.
  - exact (proj1 (recoverIdentity_order env unknown (VStr "shares") no_opts w0)
             (VStr "not found") eq_refl).
  - exact (proj1 (proj2 (recoverIdentity_order lenient "" VNull no_opts w0))
             eq_refl eq_refl).
Defined.

(** Public keys with a version of their own replace the version 1. *)
Lemma versioned_keys_win :
  JsObj.get "version" (createMuportDocument versioned_keys VUndefined VNull
                                            (VNum 0))
    = Some (VNum 7).
Proof.
  rewrite (createMuportDocument_lookup versioned_keys VUndefined VNull
             (VNum 0) "version").
  - reflexivity.
  - repeat constructor; simpl; intuition discriminate.
Defined.


(** The payload of [D1] survives the two conversions; a string without a
    colon is no identifier. *)
Lemma buffer_round_trip :
  didToBuffer env (bufferToDid env (Base58.byte_of 7 :: [Byte.x20])) w0
    = (Ok (Base58.byte_of 7 :: [Byte.x20]), w0) /\
  didToBuffer env "QmZZBBKPS2NWc6PMZbUk9zUHCo1SHKzQPPX4ndfwaYzmPW" w0
    = (Throw TypeError, w0).
Proof.
  split.
  - exact (proj1 (didToBuffer_bufferToDid env
                    (Base58.byte_of 7 :: [Byte.x20]) "" w0)
             ltac:(vm_compute; reflexivity) ltac:(vm_compute; reflexivity)).
  - exact (proj2 (didToBuffer_bufferToDid env []
                    "QmZZBBKPS2NWc6PMZbUk9zUHCo1SHKzQPPX4ndfwaYzmPW" w0)
             eq_refl).
Defined.

Lemma foreign_are_canonical :
  Forall (fun d => exists hash,
            did_segment2 d = Some hash /\ bs58_canonical lenient hash) foreign.
Proof.
  repeat constructor;
    (eexists; split; [reflexivity|]; eexists; split;
     vm_compute; reflexivity).
Qed.

(** Frank's delegates, of another method or with a further segment, read
    back as identifiers of the scheme. *)
Lemma frank_reads_normalised :
  getRecoveryDelegateDids lenient (returned nobody (fst frank_run), w0)
    = (Ok [D1; D2; D3], (returned nobody (fst frank_run), w0)).
Proof.
  assert (H : newIdentity lenient (VStr "Frank") (Some foreign) no_opts w0
              = (Ok (returned nobody (fst frank_run)), snd frank_run))
    by (vm_compute; reflexivity).
  exact (delegate_list_normalised lenient (VStr "Frank") foreign no_opts w0
           (snd frank_run) (returned nobody (fst frank_run))
           (DemoFacts.decrypt_encrypt _) foreign_are_canonical
           eq_refl eq_refl H w0).
Defined.

(** Alice, Bob and the recovered identity are restorable. *)
Lemma handed_out_restorable :
  restorable alice /\ restorable (returned nobody (fst recovery)).
Proof.
  destruct (restorable_invariant env) as (_ & Hnew & Hrec & _).
  split.
  - apply (Hnew (VStr "Alice") (Some [D1; D2; D3]) no_opts w0 alice
                (snd alice_run)).
    vm_compute; reflexivity.
  - apply (Hrec D1 VNull no_opts w0 _ (snd recovery)).
    vm_compute; reflexivity.
Defined.


End Coverage.
